(** * Salary tax calculator (India, US, UK): the tax engine

    A shallow embedding of the computational core of
    [salary_tax_calculator_india_us_uk_react_component.jsx]: the
    [taxConfigs] registry (bands and payroll extras per regime), the
    progressive slicing loop [calcProgressiveTax] and the derived figures
    computed in the body of the [SalaryTaxCalculator] component.

    Numbers.  A JavaScript [number] is modelled by [number] below: an exact
    rational, or one of the three special values [Infinity], [-Infinity]
    and [NaN], with the operators the source uses ([+], [-], [*], [/],
    [<=], [>], [Math.min], [Math.max]) behaving on the special values as
    in JavaScript.  Arithmetic on finite values is exact: the rounding of
    binary64 and the sign of zero are outside the model.

    Rounding.  The source computes in binary64, which rounds every sum,
    difference, product and quotient and overflows to [Infinity].  The
    engine is therefore embedded a second time, in module [F64], over
    Rocq's primitive floats, which are binary64; that copy runs in the
    kernel and is where the effect of rounding is exhibited.  A theorem
    about sums or products of amounts is stated, over the exact model,
    for inputs on which binary64 performs the same operations without
    rounding (safe integers), or with a margin that rounding cannot
    reach (whole amounts up to a billion); a theorem that only reads the
    control flow and the comparisons of the code is stated for all
    inputs. *)

From Stdlib Require Import QArith Qminmax Lqa Lia.
From Stdlib Require Import List String Bool Sorted.
From Stdlib Require Floats Uint63.
Import ListNotations.

Open Scope Q_scope.

(** ** Comparisons on rationals, as booleans *)

Definition Qltb (a b : Q) : bool :=
  match a ?= b with Lt => true | _ => false end.

Definition Qleb (a b : Q) : bool :=
  match a ?= b with Gt => false | _ => true end.

Definition Qeqb (a b : Q) : bool :=
  match a ?= b with Eq => true | _ => false end.

(** ** JavaScript numbers *)

Inductive number : Type :=
| Fin (q : Q)
| PInf
| NInf
| NaN.

Declare Scope js_scope.
Delimit Scope js_scope with js.
Bind Scope js_scope with number.

Module Num.

(** [Infinity], as the source spells it. *)
Definition Infinity : number := PInf.

Definition neg (x : number) : number :=
  match x with
  | Fin a => Fin (- a)
  | PInf => NInf
  | NInf => PInf
  | NaN => NaN
  end.

Definition add (x y : number) : number :=
  match x, y with
  | NaN, _ | _, NaN => NaN
  | Fin a, Fin b => Fin (a + b)
  | PInf, NInf | NInf, PInf => NaN
  | PInf, _ | _, PInf => PInf
  | NInf, _ | _, NInf => NInf
  end.

Definition sub (x y : number) : number := add x (neg y).

(** The sign of a finite value picks the infinity of a product;
    [0 * Infinity] is [NaN]. *)
Definition signed_inf (a : Q) (pos : number) : number :=
  if Qltb 0 a then pos else if Qltb a 0 then neg pos else NaN.

Definition mul (x y : number) : number :=
  match x, y with
  | NaN, _ | _, NaN => NaN
  | Fin a, Fin b => Fin (a * b)
  | Fin a, PInf | PInf, Fin a => signed_inf a PInf
  | Fin a, NInf | NInf, Fin a => signed_inf a NInf
  | PInf, PInf | NInf, NInf => PInf
  | PInf, NInf | NInf, PInf => NInf
  end.

Definition div (x y : number) : number :=
  match x, y with
  | NaN, _ | _, NaN => NaN
  | Fin a, Fin b => if Qeqb b 0 then signed_inf a PInf else Fin (a / b)
  | Fin _, _ => Fin 0
  | PInf, Fin b => if Qltb b 0 then NInf else PInf
  | NInf, Fin b => if Qltb b 0 then PInf else NInf
  | _, _ => NaN
  end.

(** [x < y]; every comparison with [NaN] is false. *)
Definition ltb (x y : number) : bool :=
  match x, y with
  | NaN, _ | _, NaN => false
  | Fin a, Fin b => Qltb a b
  | _, NInf => false
  | NInf, _ => true
  | PInf, _ => false
  | _, PInf => true
  end.

(** [x <= y]. *)
Definition leb (x y : number) : bool :=
  match x, y with
  | NaN, _ | _, NaN => false
  | Fin a, Fin b => Qleb a b
  | NInf, _ => true
  | _, PInf => true
  | _, NInf => false
  | PInf, _ => false
  end.

(** [x > y]. *)
Definition gtb (x y : number) : bool := ltb y x.

(** [Math.min(x, y)] and [Math.max(x, y)]: [NaN] when an argument is. *)
Definition min (x y : number) : number :=
  match x, y with
  | NaN, _ | _, NaN => NaN
  | _, _ => if leb x y then x else y
  end.

Definition max (x y : number) : number :=
  match x, y with
  | NaN, _ | _, NaN => NaN
  | _, _ => if leb x y then y else x
  end.

(** Two numbers denote the same value: equal rationals, or the same
    special value.  This is the relation the statements below use for
    "equals"; unlike [===] it relates [NaN] to itself. *)
Definition same (x y : number) : Prop :=
  match x, y with
  | Fin a, Fin b => a == b
  | PInf, PInf | NInf, NInf | NaN, NaN => True
  | _, _ => False
  end.

End Num.

Notation "x + y" := (Num.add x y) : js_scope.
Notation "x - y" := (Num.sub x y) : js_scope.
Notation "x * y" := (Num.mul x y) : js_scope.
Notation "x / y" := (Num.div x y) : js_scope.
Notation "x <? y" := (Num.ltb x y) : js_scope.
Notation "x <=? y" := (Num.leb x y) : js_scope.
Notation "x >? y" := (Num.gtb x y) : js_scope.
Infix "=j=" := Num.same (at level 70, no associativity).

Coercion Fin : Q >-> number.

(** ** Data model *)

Inductive FilingStatusUS : Type := single | married.

Inductive CountryKey : Type := india_new | india_old | us | uk.

Inductive Period : Type := annual | monthly.

(** [type Band = { upto: number | null; rate: number }]: [None] is the
    [null] upper bound, no upper limit. *)
Module Band.
Record t : Type := mk { upto : option number; rate : number }.
End Band.

(** One entry of the [slices] array of [calcProgressiveTax]. *)
Module Slice.
Record t : Type := mk { amount : number; rate : number; tax : number }.
End Slice.

(** One entry of the array returned by a regime's [extras]. *)
Module ExtraItem.
Record t : Type := mk { label : string; amount : number }.
End ExtraItem.

(** The [params] object.  The source types it [any]; the fields are the
    ones the regimes read, each of them possibly absent ([undefined]). *)
Record Params : Type := {
  filing : option FilingStatusUS;
  includeFICA : option bool;
  includeNI : option bool;
  personalAllowance : option number
}.

(** The empty object [{}] that stands in for a missing [defaultParams]. *)
Definition no_params : Params :=
  {| filing := None; includeFICA := None; includeNI := None;
     personalAllowance := None |}.

Module Defaults.
Record t : Type := mk {
  standardDeduction : number;
  otherDeductions : number
}.
End Defaults.

(** [type TaxConfig]; [ParamsUI], which only renders controls, is left
    out.  [extras] and [defaultParams] are optional in the source. *)
Module TaxConfig.
Record t : Type := mk {
  currency : string;
  countryLabel : string;
  notes : option string;
  defaults : Defaults.t;
  bands : option Params -> list Band.t;
  extras : option (number -> number -> option Params -> list ExtraItem.t);
  defaultParams : option Params
}.
End TaxConfig.

(** [p?.field]: the field of a possibly missing object. *)
Definition opt_field {A : Type} (f : Params -> option A) (p : option Params)
  : option A :=
  match p with Some o => f o | None => None end.

(** [x ?? d]. *)
Definition nullish {A : Type} (x : option A) (d : A) : A :=
  match x with Some v => v | None => d end.

(** Truthiness of an optional boolean, as tested by [if (p?.flag)]. *)
Definition truthy (x : option bool) : bool :=
  match x with Some true => true | _ => false end.

(** ** Progressive slicing: [calcProgressiveTax] *)

Module TaxResult.
Record t : Type := mk { tax : number; slices : list Slice.t }.
End TaxResult.

(** The variables of the loop: [remaining], [lastCap], [total] and the
    [slices] array built so far. *)
Module Loop.
Record t : Type := mk {
  remaining : number;
  lastCap : number;
  total : number;
  slices : list Slice.t
}.
End Loop.

(** The body of the [for] loop up to, and without, the [break] test. *)
Definition band_body (band : Band.t) (st : Loop.t) : Loop.t :=
  let cap := nullish (Band.upto band) Num.Infinity in
  let sliceAmount :=
    Num.max (Fin 0) (Num.min (Loop.remaining st) (cap - Loop.lastCap st)) in
  let sliceTax := (sliceAmount * Band.rate band)%js in
  if (sliceAmount >? Fin 0)%js then
    {| Loop.remaining := Loop.remaining st - sliceAmount;
       Loop.lastCap := cap;
       Loop.total := Loop.total st + sliceTax;
       Loop.slices := Loop.slices st ++ [Slice.mk sliceAmount (Band.rate band) sliceTax] |}
  else st.

(** [for (const band of bands) { ...; if (remaining <= 0) break; }] *)
Fixpoint for_bands (bands : list Band.t) (st : Loop.t) : Loop.t :=
  match bands with
  | [] => st
  | band :: rest =>
      let st' := band_body band st in
      if (Loop.remaining st' <=? Fin 0)%js then st' else for_bands rest st'
  end.

Definition calcProgressiveTax (income : number) (bands : list Band.t)
  : TaxResult.t :=
  let st :=
    for_bands bands
      {| Loop.remaining := Num.max (Fin 0) income;
         Loop.lastCap := Fin 0;
         Loop.total := Fin 0;
         Loop.slices := [] |} in
  TaxResult.mk (Loop.total st) (Loop.slices st).

(** ** The regime registry: [taxConfigs] *)

Definition india_new_bands (_ : option Params) : list Band.t :=
  [ Band.mk (Some (Fin 300000)) (Fin 0);
    Band.mk (Some (Fin 700000)) (Fin 0.05);
    Band.mk (Some (Fin 1000000)) (Fin 0.10);
    Band.mk (Some (Fin 1200000)) (Fin 0.15);
    Band.mk (Some (Fin 1500000)) (Fin 0.20);
    Band.mk None (Fin 0.30) ].

Definition india_old_bands (_ : option Params) : list Band.t :=
  [ Band.mk (Some (Fin 250000)) (Fin 0);
    Band.mk (Some (Fin 500000)) (Fin 0.05);
    Band.mk (Some (Fin 1000000)) (Fin 0.20);
    Band.mk None (Fin 0.30) ].

Definition us_bands (p : option Params) : list Band.t :=
  let filing := nullish (opt_field filing p) single in
  match filing with
  | married =>
      [ Band.mk (Some (Fin 22000)) (Fin 0.1);
        Band.mk (Some (Fin 94000)) (Fin 0.12);
        Band.mk (Some (Fin 201000)) (Fin 0.22);
        Band.mk (Some (Fin 383000)) (Fin 0.24);
        Band.mk (Some (Fin 487000)) (Fin 0.32);
        Band.mk (Some (Fin 732000)) (Fin 0.35);
        Band.mk None (Fin 0.37) ]
  | single =>
      [ Band.mk (Some (Fin 11000)) (Fin 0.1);
        Band.mk (Some (Fin 47000)) (Fin 0.12);
        Band.mk (Some (Fin 100000)) (Fin 0.22);
        Band.mk (Some (Fin 191000)) (Fin 0.24);
        Band.mk (Some (Fin 243000)) (Fin 0.32);
        Band.mk (Some (Fin 366000)) (Fin 0.35);
        Band.mk None (Fin 0.37) ]
  end.

Definition us_extras (taxable gross : number) (p : option Params)
  : list ExtraItem.t :=
  let items : list ExtraItem.t := [] in
  if truthy (opt_field includeFICA p) then
    let ssWageCap := Fin 168600 in
    let socialSecurity := (Num.min gross ssWageCap * Fin 0.062)%js in
    let medicare := (gross * Fin 0.0145)%js in
    (items ++ [ExtraItem.mk "Social Security (6.2%)" socialSecurity])
      ++ [ExtraItem.mk "Medicare (1.45%)" medicare]
  else items.

Definition uk_bands (p : option Params) : list Band.t :=
  [ Band.mk (Some (nullish (opt_field personalAllowance p) (Fin 12570))) (Fin 0);
    Band.mk (Some (Fin 50270)) (Fin 0.20);
    Band.mk (Some (Fin 125140)) (Fin 0.40);
    Band.mk None (Fin 0.45) ].

Definition uk_extras (_taxable gross : number) (p : option Params)
  : list ExtraItem.t :=
  let items : list ExtraItem.t := [] in
  if truthy (opt_field includeNI p) then
    let primaryThreshold := Fin 12570 in
    let upperEarningsLimit := Fin 50270 in
    let niLower :=
      (Num.max (Fin 0) (Num.min gross upperEarningsLimit - primaryThreshold)
       * Fin 0.08)%js in
    let niUpper :=
      (Num.max (Fin 0) (gross - upperEarningsLimit) * Fin 0.02)%js in
    items ++ [ExtraItem.mk "National Insurance (employee)" (niLower + niUpper)]
  else items.

Definition zero_defaults : Defaults.t :=
  Defaults.mk (Fin 0) (Fin 0).

Definition taxConfigs (country : CountryKey) : TaxConfig.t :=
  match country with
  | india_new =>
      {| TaxConfig.currency := "₹";
         TaxConfig.countryLabel := "India – New Regime";
         TaxConfig.notes := Some "Sample slabs. Update yearly."%string;
         TaxConfig.defaults := zero_defaults;
         TaxConfig.bands := india_new_bands;
         TaxConfig.extras := None;
         TaxConfig.defaultParams := None |}
  | india_old =>
      {| TaxConfig.currency := "₹";
         TaxConfig.countryLabel := "India – Old Regime";
         TaxConfig.notes := Some "Sample slabs. Update yearly. Add your 80C/80D etc. into 'Other deductions'."%string;
         TaxConfig.defaults := zero_defaults;
         TaxConfig.bands := india_old_bands;
         TaxConfig.extras := None;
         TaxConfig.defaultParams := None |}
  | us =>
      {| TaxConfig.currency := "$";
         TaxConfig.countryLabel := "United States – Federal";
         TaxConfig.notes := Some "Simplified federal. Add state taxes separately if needed."%string;
         TaxConfig.defaults := zero_defaults;
         TaxConfig.bands := us_bands;
         TaxConfig.extras := Some us_extras;
         TaxConfig.defaultParams :=
           Some {| filing := Some single; includeFICA := Some true;
                   includeNI := None; personalAllowance := None |} |}
  | uk =>
      {| TaxConfig.currency := "£";
         TaxConfig.countryLabel := "United Kingdom (rUK)";
         TaxConfig.notes := Some "Simplified Income Tax + optional NI (not Scotland). Update thresholds yearly."%string;
         TaxConfig.defaults := zero_defaults;
         TaxConfig.bands := uk_bands;
         TaxConfig.extras := Some uk_extras;
         TaxConfig.defaultParams :=
           Some {| filing := None; includeFICA := None;
                   includeNI := Some true;
                   personalAllowance := Some (Fin 12570) |} |}
  end.

(** ** The figures derived in the body of [SalaryTaxCalculator]

    The component keeps its inputs in React state; every figure below is
    a [const] of the component body, a function of that state.  [cfg] is
    read from the registry at the current [country]. *)

Module State.
Record t : Type := mk {
  country : CountryKey;
  amount : number;
  period : Period;
  standardDeduction : number;
  otherDeductions : number;
  params : Params
}.
End State.

Section SalaryTaxCalculator.

Variable st : State.t.

Definition cfg : TaxConfig.t := taxConfigs (State.country st).

Definition grossAnnual : number :=
  match State.period st with
  | annual => State.amount st
  | monthly => (State.amount st * Fin 12)%js
  end.

Definition deductions : number :=
  Num.max (Fin 0) (State.standardDeduction st + State.otherDeductions st).

Definition taxableBase : number :=
  Num.max (Fin 0) (grossAnnual - deductions).

Definition progressive : TaxResult.t :=
  let bands := TaxConfig.bands cfg (Some (State.params st)) in
  calcProgressiveTax taxableBase bands.

Definition incomeTax : number := TaxResult.tax progressive.

Definition slices : list Slice.t := TaxResult.slices progressive.

Definition extras : list ExtraItem.t :=
  match TaxConfig.extras cfg with
  | Some f => f taxableBase grossAnnual (Some (State.params st))
  | None => []
  end.

Definition extraTotal : number :=
  fold_left (fun a b => (a + ExtraItem.amount b)%js) extras (Fin 0).

Definition totalTax : number := incomeTax + extraTotal.

Definition netAnnual : number := Num.max (Fin 0) (grossAnnual - totalTax).

Definition toDisplay (n : number) : number :=
  match State.period st with
  | annual => n
  | monthly => (n / Fin 12)%js
  end.

Definition marginalRate : number :=
  match slices with
  | [] => Fin 0
  | s :: rest => Slice.rate (last rest s)
  end.

Definition effRate : number :=
  if (grossAnnual >? Fin 0)%js then (totalTax / grossAnnual)%js else Fin 0.

End SalaryTaxCalculator.

(** The state the component starts from for a regime: the initial
    [useState] values, with the regime's defaults. *)
Definition initial_state (c : CountryKey) : State.t :=
  State.mk c (Fin 1200000) annual
    (Defaults.standardDeduction (TaxConfig.defaults (taxConfigs c)))
    (Defaults.otherDeductions (TaxConfig.defaults (taxConfigs c)))
    (nullish (TaxConfig.defaultParams (taxConfigs c)) no_params).

(** ** Properties used by the statements *)

(** The rates of a list read in order are strictly increasing. *)
Fixpoint increasing (l : list number) : bool :=
  match l with
  | [] => true
  | x :: rest =>
      match rest with
      | [] => true
      | y :: _ => (x <? y)%js && increasing rest
      end
  end.

(** [l1] is [l2] with some elements left out, the order kept. *)
Inductive Subseq {A : Type} : list A -> list A -> Prop :=
| Subseq_nil : Subseq [] []
| Subseq_skip x l1 l2 : Subseq l1 l2 -> Subseq l1 (x :: l2)
| Subseq_take x l1 l2 : Subseq l1 l2 -> Subseq (x :: l1) (x :: l2).

(** [sum(slice.amount)], accumulated from 0 as [reduce] does. *)
Definition sum_amounts (l : list Slice.t) : number :=
  fold_left (fun a s => (a + Slice.amount s)%js) l (Fin 0).

(** A valid band partition: every band but the last has a finite upper
    bound, these bounds are strictly increasing, and exactly the last
    band is unbounded. *)
Fixpoint increasing_caps (prev : option Q) (bands : list Band.t) : bool :=
  match bands with
  | [] => false
  | b :: rest =>
      match Band.upto b, rest with
      | None, [] => true
      | Some (Fin u), _ :: _ =>
          match prev with Some p => Qltb p u | None => true end
          && increasing_caps (Some u) rest
      | _, _ => false
      end
  end.

Definition valid_partition (bands : list Band.t) : bool :=
  increasing_caps None bands.

(** The rate of a band is a fraction in [0, 1]. *)
Definition fraction_rate (b : Band.t) : bool :=
  match Band.rate b with
  | Fin r => Qleb 0 r && Qleb r 1
  | _ => false
  end.

(** A loop state given by its four variables. *)
Definition mkState (r c : number) (t : number) (s : list Slice.t) : Loop.t :=
  {| Loop.remaining := r; Loop.lastCap := c; Loop.total := t; Loop.slices := s |}.

(** The state after the body has taken a slice of [m] out of a finite
    [remaining = r] at rate [rho], the cap moving to [u]. *)
Definition take (m : Q) (u : number) (rho : number) (r : Q) (t : number)
  (s : list Slice.t) : Loop.t :=
  mkState (Fin (r + - m)) u (t + Fin m * rho)%js
    (s ++ [Slice.mk (Fin m) rho (Fin m * rho)%js]).

(** The clamp at the entry of [calcProgressiveTax]. *)
Definition clamp (x : Q) : Q := if Qleb 0 x then x else 0.

(** A slice carries income. *)
Definition positive_amount (s : Slice.t) : Prop :=
  (Slice.amount s >? Fin 0)%js = true.

(** An unbounded band is reached through bands with finite upper bounds. *)
Fixpoint ends_unbounded (bands : list Band.t) : bool :=
  match bands with
  | [] => false
  | b :: rest =>
      match Band.upto b with
      | None => true
      | Some (Fin _) => ends_unbounded rest
      | Some _ => false
      end
  end.

(** The upper bound of a band is finite or absent. *)
Definition finite_cap (b : Band.t) : bool :=
  match Band.upto b with
  | None | Some (Fin _) => true
  | Some _ => false
  end.

(** ** The inputs of the worked cases *)

(** The partition of the boundary case. *)
Definition two_bands : list Band.t :=
  [Band.mk (Some (Fin 100)) (Fin 0); Band.mk None (Fin 0.1)].

(** The UK parameters with a given personal allowance, and the band tax
    of an income under them. *)
Definition uk_params (allowance : Q) : option Params :=
  Some {| filing := None; includeFICA := None; includeNI := Some true;
          personalAllowance := Some (Fin allowance) |}.

Definition uk_tax (allowance income : Q) : number :=
  TaxResult.tax
    (calcProgressiveTax (Fin income) (uk_bands (uk_params allowance))).

Definition us_at_200000 : State.t :=
  State.mk us (Fin 200000) annual (Fin 0) (Fin 0)
    (nullish (TaxConfig.defaultParams (taxConfigs us)) no_params).

Definition uk_at_60000 : State.t :=
  State.mk uk (Fin 60000) annual (Fin 5000) (Fin 0)
    (nullish (TaxConfig.defaultParams (taxConfigs uk)) no_params).

Definition us_without_fica : State.t :=
  State.mk us (Fin 50000) annual (Fin 0) (Fin 0)
    {| filing := Some single; includeFICA := Some false;
       includeNI := None; personalAllowance := None |}.

Definition us_negative_gross : State.t :=
  State.mk us (Fin (-1000)) annual (Fin 0) (Fin 0)
    (nullish (TaxConfig.defaultParams (taxConfigs us)) no_params).

Definition india_at_zero : State.t :=
  State.mk india_new (Fin 0) monthly (Fin 50000) (Fin 0) no_params.

(** ** Further code and properties

    [currencySymbolToISO], the helper of [fmt] that picks the ISO code
    handed to [Intl.NumberFormat]. *)
Definition currencySymbolToISO (sym : string) : string :=
  if String.eqb sym "₹" then "INR"
  else if String.eqb sym "$" then "USD"
  else if String.eqb sym "£" then "GBP"
  else "USD".

(** [sum(slice.tax)], accumulated from 0. *)
Definition sum_taxes (l : list Slice.t) : number :=
  fold_left (fun a s => (a + Slice.tax s)%js) l (Fin 0).

(** The tax of a slice is its amount times its rate. *)
Definition slice_tax_ok (s : Slice.t) : Prop :=
  Slice.tax s = (Slice.amount s * Slice.rate s)%js.

(** *** Progressive tax, band by band

    The textbook reading of a band partition, against which the loop of
    [calcProgressiveTax] is compared: the band that runs from [lo] up to
    [hi] (no [hi]: unbounded) is charged on the part of the income [x]
    that lies between the two. *)
Definition portion (lo : Q) (hi : option Q) (x : Q) : Q :=
  clamp (match hi with
         | Some u => if Qleb x u then x else u
         | None => x
         end - lo).

(** The portion and the rate of every band, the lower bound of a band
    being the upper bound of the band before it. *)
Fixpoint band_portions (lo x : Q) (bands : list Band.t) : list (Q * number) :=
  match bands with
  | [] => []
  | b :: rest =>
      match Band.upto b with
      | Some (Fin u) =>
          (portion lo (Some u) x, Band.rate b) :: band_portions u x rest
      | _ => [(portion lo None x, Band.rate b)]
      end
  end.

Definition taxed (p : Q * number) : bool := Qltb 0 (fst p).

(** A slice carries the amount and the rate of a band portion. *)
Definition slice_of_portion (s : Slice.t) (p : Q * number) : Prop :=
  Slice.amount s =j= Fin (fst p) /\ Slice.rate s = snd p.

(** *** Well-formed inputs of the component *)

Definition is_fin (x : number) : bool :=
  match x with Fin _ => true | _ => false end.

(** [personalAllowance] is absent or a finite amount. *)
Definition finite_allowance (p : Params) : bool :=
  match personalAllowance p with
  | None | Some (Fin _) => true
  | Some _ => false
  end.

(** The amount and the two deductions entered are finite numbers, and so
    is the personal allowance when there is one. *)
Definition finite_inputs (st : State.t) : bool :=
  is_fin (State.amount st)
  && is_fin (State.standardDeduction st)
  && is_fin (State.otherDeductions st)
  && finite_allowance (State.params st).

(** The parameters under which the bands of a regime are a partition:
    none are needed but in the UK, where the personal allowance, when
    given, must lie strictly between 0 and the basic-rate limit. *)
Definition partition_params (c : CountryKey) (p : Params) : bool :=
  match c with
  | uk =>
      match personalAllowance p with
      | None => true
      | Some (Fin a) => Qltb 0 a && Qltb a 50270
      | Some _ => false
      end
  | _ => true
  end.

(** *** Comparing two partitions

    [widened A B]: the two lists have the same length and, band by
    band, the same finite rate; every upper bound of [B] is at least the
    one of [A], and a band is unbounded in both or in neither. *)
Definition same_rate (a b : Band.t) : bool :=
  match Band.rate a, Band.rate b with
  | Fin p, Fin q => Qeqb p q
  | _, _ => false
  end.

Definition cap_le (a b : Band.t) : bool :=
  match Band.upto a, Band.upto b with
  | Some (Fin u), Some (Fin v) => Qleb u v
  | None, None => true
  | _, _ => false
  end.

Fixpoint widened (A B : list Band.t) : bool :=
  match A, B with
  | [], [] => true
  | a :: A', b :: B' => same_rate a b && cap_le a b && widened A' B'
  | _, _ => false
  end.

(** The rates are finite, at least [rho], and never decrease from one
    band to the next. *)
Fixpoint rates_from (rho : Q) (bands : list Band.t) : bool :=
  match bands with
  | [] => true
  | b :: rest =>
      match Band.rate b with
      | Fin p => Qleb rho p && rates_from p rest
      | _ => false
      end
  end.

(** The band tax of the US regime for a filing status. *)
Definition us_tax (f : FilingStatusUS) (income : Q) : number :=
  TaxResult.tax
    (calcProgressiveTax (Fin income)
       (us_bands (Some {| filing := Some f; includeFICA := Some true;
                          includeNI := None; personalAllowance := None |}))).

(** *** Rates and raises *)

(** Every rate is a finite fraction between 0 and [M]. *)
Definition rate_within (M : Q) (b : Band.t) : bool :=
  match Band.rate b with
  | Fin p => Qleb 0 p && Qleb p M
  | _ => false
  end.

(** The highest band rate of a regime, and the highest rate at which its
    extras grow with the gross income (6.2% + 1.45% in the US, 8% in the
    UK). *)
Definition top_rate (c : CountryKey) : Q :=
  match c with
  | india_new | india_old => 0.30
  | us => 0.37
  | uk => 0.45
  end.

Definition extras_rate (c : CountryKey) : Q :=
  match c with
  | india_new | india_old => 0
  | us => 0.0765
  | uk => 0.08
  end.

(** The state with another amount entered. *)
Definition with_amount (st : State.t) (a : Q) : State.t :=
  State.mk (State.country st) (Fin a) (State.period st)
    (State.standardDeduction st) (State.otherDeductions st) (State.params st).


(** *** The slices of a finite run

    A finite slice is an amount and a rate; [to_slice] is the entry the
    loop pushes for it. *)
Definition to_slice (e : Q * Q) : Slice.t :=
  Slice.mk (Fin (fst e)) (Fin (snd e)) (Fin (fst e * snd e)).

(** The tax and the amount carried by a list of finite slices. *)
Fixpoint dot (l : list (Q * Q)) : Q :=
  match l with
  | [] => 0
  | e :: rest => fst e * snd e + dot rest
  end.

Fixpoint mass (l : list (Q * Q)) : Q :=
  match l with
  | [] => 0
  | e :: rest => fst e + mass rest
  end.

(** The rates start at [rho] or above and never decrease. *)
Fixpoint chain (rho : Q) (l : list (Q * Q)) : Prop :=
  match l with
  | [] => True
  | e :: rest => rho <= snd e /\ chain (snd e) rest
  end.

(** The rate of the last slice, [rho] when there is none. *)
Definition last_rate (rho : Q) (l : list (Q * Q)) : Q :=
  last (map snd l) rho.

Definition uk_monthly_5000 : State.t :=
  State.mk uk (Fin 5000) monthly (Fin 1000) (Fin 500)
    {| filing := None; includeFICA := None; includeNI := Some true;
       personalAllowance := Some (Fin 60000) |}.

Definition uk_negative_gross : State.t :=
  State.mk uk (Fin (-1000)) annual (Fin 0) (Fin 0)
    (nullish (TaxConfig.defaultParams (taxConfigs uk)) no_params).

(** *** Numbers that binary64 holds exactly

    A whole number; a safe integer, of magnitude at most 2^53 - 1
    ([Number.MAX_SAFE_INTEGER]); a band whose upper bound, when it has
    one, is a safe integer.  Sums, differences, minima and maxima of
    safe integers that stay safe are computed by binary64 without
    rounding, as they are in the exact model. *)
Definition whole (q : Q) : bool :=
  (Qnum q mod Zpos (Qden q) =? 0)%Z.

Definition safe_integer (q : Q) : bool :=
  whole q && Qleb (- 9007199254740991) q && Qleb q 9007199254740991.

Definition safe_band (b : Band.t) : bool :=
  match Band.upto b with
  | None => true
  | Some (Fin u) => safe_integer u
  | Some _ => false
  end.

(** A whole number of magnitude at most one billion, and inputs of the
    component that are such numbers: far from overflow, and small enough
    for the rounding of a product or a quotient to stay well below one
    unit of currency. *)
Definition modest (q : Q) : bool :=
  whole q && Qleb (- 1000000000) q && Qleb q 1000000000.

Definition modest_number (x : number) : bool :=
  match x with Fin q => modest q | _ => false end.

Definition modest_inputs (st : State.t) : bool :=
  modest_number (State.amount st)
  && modest_number (State.standardDeduction st)
  && modest_number (State.otherDeductions st)
  && match personalAllowance (State.params st) with
     | None => true
     | Some a => modest_number a
     end.


(** The margin within which a tax difference is stated when binary64
    rounds the products that make it. *)
Definition rounding_margin : Q := 1 # 1000000.


(** ** The same code over binary64

    A JavaScript [number] is an IEEE 754 binary64, and so is Rocq's
    primitive [float], with the same round-to-nearest-even [+], [-], [*]
    and [/].  Module [F64] is the engine once more, word for word, over
    these floats; it runs inside the kernel.  It shows where rounding
    makes the code depart from the exact model above. *)

Module F64.

Definition float : Set := PrimFloat.float.

(** The bands of the exact model, under names that stay in view below. *)
Definition exact_band : Type := Band.t.
Definition exact_upto : exact_band -> option number := Band.upto.
Definition exact_rate : exact_band -> number := Band.rate.

(** Integers and decimal literals.  [of_Z] is exact up to 2^53 in
    magnitude; beyond 2^62, which no figure below reaches, it answers
    [NaN] rather than a wrong number.  [of_Q (n # d)], for [n] and [d]
    up to 2^53, is the correctly rounded quotient of two exact
    integers, that is the double nearest to the rational: the value the
    decimal literal has in the source. *)
Definition of_Z (z : Z) : float :=
  if (Z.abs z <? 2 ^ 62)%Z then
    match z with
    | Zneg p => PrimFloat.opp (PrimFloat.of_uint63 (Uint63.of_Z (Zpos p)))
    | _ => PrimFloat.of_uint63 (Uint63.of_Z z)
    end
  else PrimFloat.nan.

Definition of_Q (q : Q) : float :=
  PrimFloat.div (of_Z (Qnum q)) (of_Z (Zpos (Qden q))).

Definition of_number (x : number) : float :=
  match x with
  | Fin q => of_Q q
  | PInf => PrimFloat.infinity
  | NInf => PrimFloat.neg_infinity
  | NaN => PrimFloat.nan
  end.

Definition zero : float := of_Z 0.

Definition Infinity : float := PrimFloat.infinity.

Definition is_neg_zero (x : float) : bool :=
  match PrimFloat.classify x with
  | FloatClass.NZero => true
  | _ => false
  end.

(** [Math.max] and [Math.min]: [NaN] when an argument is, and [+0]
    above [-0]. *)
Definition max (x y : float) : float :=
  if PrimFloat.is_nan x || PrimFloat.is_nan y then PrimFloat.nan
  else if PrimFloat.ltb x y then y
  else if PrimFloat.ltb y x then x
  else if is_neg_zero x then y else x.

Definition min (x y : float) : float :=
  if PrimFloat.is_nan x || PrimFloat.is_nan y then PrimFloat.nan
  else if PrimFloat.ltb x y then x
  else if PrimFloat.ltb y x then y
  else if is_neg_zero x then x else y.

(** [x > y]. *)
Definition gtb (x y : float) : bool := PrimFloat.ltb y x.

Module Band.
Record t : Type := mk { upto : option float; rate : float }.
End Band.

Module Slice.
Record t : Type := mk { amount : float; rate : float; tax : float }.
End Slice.

Module ExtraItem.
Record t : Type := mk { label : string; amount : float }.
End ExtraItem.

Module TaxResult.
Record t : Type := mk { tax : float; slices : list Slice.t }.
End TaxResult.

Module Loop.
Record t : Type := mk {
  remaining : float;
  lastCap : float;
  total : float;
  slices : list Slice.t
}.
End Loop.

Definition band_body (band : Band.t) (st : Loop.t) : Loop.t :=
  let cap := nullish (Band.upto band) Infinity in
  let sliceAmount :=
    max zero (min (Loop.remaining st) (PrimFloat.sub cap (Loop.lastCap st))) in
  let sliceTax := PrimFloat.mul sliceAmount (Band.rate band) in
  if gtb sliceAmount zero then
    {| Loop.remaining := PrimFloat.sub (Loop.remaining st) sliceAmount;
       Loop.lastCap := cap;
       Loop.total := PrimFloat.add (Loop.total st) sliceTax;
       Loop.slices :=
         Loop.slices st ++ [Slice.mk sliceAmount (Band.rate band) sliceTax] |}
  else st.

Fixpoint for_bands (bands : list Band.t) (st : Loop.t) : Loop.t :=
  match bands with
  | [] => st
  | band :: rest =>
      let st' := band_body band st in
      if PrimFloat.leb (Loop.remaining st') zero then st'
      else for_bands rest st'
  end.

Definition calcProgressiveTax (income : float) (bands : list Band.t)
  : TaxResult.t :=
  let st :=
    for_bands bands
      {| Loop.remaining := max zero income;
         Loop.lastCap := zero;
         Loop.total := zero;
         Loop.slices := [] |} in
  TaxResult.mk (Loop.total st) (Loop.slices st).

(** The band tables are those of [taxConfigs], every number read as a
    double. *)
Definition of_band (b : exact_band) : Band.t :=
  Band.mk (option_map of_number (exact_upto b)) (of_number (exact_rate b)).

Definition bands (c : CountryKey) (p : Params) : list Band.t :=
  map of_band (TaxConfig.bands (taxConfigs c) (Some p)).

Definition us_extras (taxable gross : float) (p : option Params)
  : list ExtraItem.t :=
  let items : list ExtraItem.t := [] in
  if truthy (opt_field includeFICA p) then
    let ssWageCap := of_Q 168600 in
    let socialSecurity := PrimFloat.mul (min gross ssWageCap) (of_Q 0.062) in
    let medicare := PrimFloat.mul gross (of_Q 0.0145) in
    (items ++ [ExtraItem.mk "Social Security (6.2%)" socialSecurity])
      ++ [ExtraItem.mk "Medicare (1.45%)" medicare]
  else items.

Definition uk_extras (_taxable gross : float) (p : option Params)
  : list ExtraItem.t :=
  let items : list ExtraItem.t := [] in
  if truthy (opt_field includeNI p) then
    let primaryThreshold := of_Q 12570 in
    let upperEarningsLimit := of_Q 50270 in
    let niLower :=
      PrimFloat.mul
        (max zero (PrimFloat.sub (min gross upperEarningsLimit) primaryThreshold))
        (of_Q 0.08) in
    let niUpper :=
      PrimFloat.mul (max zero (PrimFloat.sub gross upperEarningsLimit))
        (of_Q 0.02) in
    items ++ [ExtraItem.mk "National Insurance (employee)"
                (PrimFloat.add niLower niUpper)]
  else items.

Definition extras_of (c : CountryKey)
  : option (float -> float -> option Params -> list ExtraItem.t) :=
  match c with
  | india_new | india_old => None
  | us => Some us_extras
  | uk => Some uk_extras
  end.

(** The figures of the component, from the same state; the numbers
    entered are read as doubles. *)
Section SalaryTaxCalculator.

Variable st : State.t.

Definition grossAnnual : float :=
  match State.period st with
  | annual => of_number (State.amount st)
  | monthly => PrimFloat.mul (of_number (State.amount st)) (of_Z 12)
  end.

Definition deductions : float :=
  max zero
    (PrimFloat.add (of_number (State.standardDeduction st))
       (of_number (State.otherDeductions st))).

Definition taxableBase : float :=
  max zero (PrimFloat.sub grossAnnual deductions).

Definition progressive : TaxResult.t :=
  calcProgressiveTax taxableBase (bands (State.country st) (State.params st)).

Definition incomeTax : float := TaxResult.tax progressive.

Definition slices : list Slice.t := TaxResult.slices progressive.

Definition extras : list ExtraItem.t :=
  match extras_of (State.country st) with
  | Some f => f taxableBase grossAnnual (Some (State.params st))
  | None => []
  end.

Definition extraTotal : float :=
  fold_left (fun a b => PrimFloat.add a (ExtraItem.amount b)) extras zero.

Definition totalTax : float := PrimFloat.add incomeTax extraTotal.

Definition netAnnual : float :=
  max zero (PrimFloat.sub grossAnnual totalTax).

Definition marginalRate : float :=
  match slices with
  | [] => zero
  | s :: rest => Slice.rate (last rest s)
  end.

Definition effRate : float :=
  if gtb grossAnnual zero then PrimFloat.div totalTax grossAnnual else zero.

End SalaryTaxCalculator.

(** [sum(slice.amount)], accumulated from 0 as [reduce] does. *)
Definition sum_amounts (l : list Slice.t) : float :=
  fold_left (fun a s => PrimFloat.add a (Slice.amount s)) l zero.

End F64.

(** *** Statements read in binary64

    The statement of the personal-allowance shift, evaluated by the
    binary64 engine at one whole income: the old tax is
    [(income - 12570) * 0.20]; from 15,000 on the new tax is
    [(income - 15000) * 0.20] and the fall is within the margin of 486;
    up to 15,000 the new tax is 0. *)
Definition f64_uk_tax (allowance income : Q) : F64.float :=
  F64.TaxResult.tax
    (F64.calcProgressiveTax (F64.of_Q income)
       (F64.bands uk
          {| filing := None; includeFICA := None; includeNI := Some true;
             personalAllowance := Some (Fin allowance) |})).

Definition f64_allowance_shift (income : Z) : bool :=
  let x := F64.of_Z income in
  let old := f64_uk_tax 12570 (inject_Z income) in
  let new := f64_uk_tax 15000 (inject_Z income) in
  let fall := PrimFloat.sub old new in
  PrimFloat.eqb old
    (PrimFloat.mul (PrimFloat.sub x (F64.of_Q 12570)) (F64.of_Q 0.20))
  && (if (15000 <=? income)%Z then
        PrimFloat.eqb new
          (PrimFloat.mul (PrimFloat.sub x (F64.of_Q 15000)) (F64.of_Q 0.20))
        && PrimFloat.leb (F64.of_Q (486 - rounding_margin)) fall
        && PrimFloat.leb fall (F64.of_Q (486 + rounding_margin))
      else true)
  && (if (income <=? 15000)%Z then
        PrimFloat.eqb new F64.zero && PrimFloat.eqb fall old
      else true).

(** [p] holds of the [n] whole numbers from [from] on. *)
Fixpoint for_whole (n : nat) (from : Z) (p : Z -> bool) : bool :=
  match n with
  | O => true
  | S n' => p from && for_whole n' (from + 1)%Z p
  end.

(** A double that is neither [NaN] nor infinite. *)
Definition f64_finite (x : F64.float) : bool :=
  PrimFloat.ltb PrimFloat.neg_infinity x && PrimFloat.ltb x PrimFloat.infinity.

(** The figures of the component, computed in binary64 for one state,
    satisfy what is stated of them below: the slices add up to the
    taxable income; the income tax lies between 0 and the taxable
    income, itself at most the gross income; the total tax, the net
    income and the effective rate are finite; the net income is the
    gross income less the total tax; the income tax is at most the
    marginal rate times the taxable income; the effective rate is at
    most the top band rate plus the rate of the extras. *)
Definition f64_figures_hold (st : State.t) : bool :=
  let g := F64.grossAnnual st in
  let b := F64.taxableBase st in
  let T := F64.incomeTax st in
  let tt := F64.totalTax st in
  let net := F64.netAnnual st in
  let eff := F64.effRate st in
  let bound := F64.of_Q (top_rate (State.country st) + extras_rate (State.country st)) in
  PrimFloat.eqb (F64.sum_amounts (F64.slices st)) b
  && PrimFloat.leb F64.zero T && PrimFloat.leb T b && PrimFloat.leb b g
  && f64_finite tt && f64_finite net && f64_finite eff
  && PrimFloat.leb F64.zero tt
  && PrimFloat.leb tt (PrimFloat.mul bound g)
  && PrimFloat.eqb net (PrimFloat.sub g tt)
  && PrimFloat.leb T (PrimFloat.mul (F64.marginalRate st) b)
  && PrimFloat.leb F64.zero eff
  && PrimFloat.leb eff bound.

(** The states tried: every regime with its default parameters, both
    periods, no deduction or 75,000 of them, and every amount from 0 to
    5,000,000 by steps of 25,000 (the slider of the component runs over
    this range). *)
Definition grid_states : list State.t :=
  flat_map (fun c =>
    flat_map (fun per =>
      flat_map (fun sd =>
        map (fun k =>
               State.mk c (Fin (inject_Z (Z.of_nat k * 25000))) per
                 (Fin sd) (Fin 0)
                 (nullish (TaxConfig.defaultParams (taxConfigs c)) no_params))
            (seq 0 201))
        [0; 75000])
      [annual; monthly])
    [india_new; india_old; us; uk].

(** * Proofs *)

(** ** Rational comparisons *)

Lemma Qltb_spec (a b : Q) : BoolSpec (a < b) (b <= a) (Qltb a b).
Proof.
  unfold Qltb. destruct (Qcompare_spec a b); constructor; lra.
Qed.

Lemma Qleb_spec (a b : Q) : BoolSpec (a <= b) (b < a) (Qleb a b).
Proof.
  unfold Qleb. destruct (Qcompare_spec a b); constructor; lra.
Qed.

Lemma Qeqb_spec (a b : Q) : BoolSpec (a == b) (~ a == b) (Qeqb a b).
Proof.
  unfold Qeqb. destruct (Qcompare_spec a b); constructor; lra.
Qed.

(** Unfold the JavaScript operators and split on every rational
    comparison that blocks the computation. *)
Ltac js_unfold :=
  cbv [Num.max Num.min Num.sub Num.add Num.neg Num.mul Num.leb Num.ltb
       Num.gtb Num.signed_inf Num.Infinity Num.same nullish] in *.

Ltac q_split :=
  repeat (
    match goal with
    | |- context [Qltb ?a ?b] => destruct (Qltb_spec a b)
    | |- context [Qleb ?a ?b] => destruct (Qleb_spec a b)
    | |- context [Qeqb ?a ?b] => destruct (Qeqb_spec a b)
    | H : context [Qltb ?a ?b] |- _ => destruct (Qltb_spec a b)
    | H : context [Qleb ?a ?b] |- _ => destruct (Qleb_spec a b)
    | H : context [Qeqb ?a ?b] |- _ => destruct (Qeqb_spec a b)
    end; cbv beta iota in *).

Ltac js_cases := js_unfold; q_split.

(** ** Same-value is an equivalence *)

Lemma same_refl (x : number) : x =j= x.
Proof. destruct x; simpl; auto. reflexivity. Qed.

Lemma same_sym (x y : number) : x =j= y -> y =j= x.
Proof. destruct x, y; simpl; auto. intros H; symmetry; exact H. Qed.

Lemma same_trans (x y z : number) : x =j= y -> y =j= z -> x =j= z.
Proof.
  destruct x, y, z; simpl; auto; try contradiction.
  intros H1 H2; rewrite H1; exact H2.
Qed.

Lemma mul_comm (x y : number) : (x * y)%js =j= (y * x)%js.
Proof.
  destruct x, y; js_cases; auto; lra.
Qed.

(** ** Transitivity of [<] and increasing lists *)

Lemma ltb_trans (x y z : number) :
  (x <? y)%js = true -> (y <? z)%js = true -> (x <? z)%js = true.
Proof.
  destruct x, y, z; js_cases; auto; intros; try discriminate; lra.
Qed.

Lemma increasing_cons (x : number) (l : list number) :
  increasing (x :: l) = true <->
  Forall (fun y => (x <? y)%js = true) l /\ increasing l = true.
Proof.
  revert x; induction l as [|y l IH]; intros x.
  - simpl; split; auto.
  - change (increasing (x :: y :: l)) with ((x <? y)%js && increasing (y :: l)).
    rewrite andb_true_iff. split.
    + intros [Hxy Hl]. split; [|exact Hl].
      constructor; [exact Hxy|].
      apply IH in Hl. destruct Hl as [Hall _].
      eapply Forall_impl; [|exact Hall].
      intros z Hz. eapply ltb_trans; eassumption.
    + intros [Hall Hl]. split; [|exact Hl].
      inversion Hall; assumption.
Qed.

Lemma Subseq_Forall {A : Type} (P : A -> Prop) (l1 l2 : list A) :
  Subseq l1 l2 -> Forall P l2 -> Forall P l1.
Proof.
  induction 1; intros HF; auto.
  - inversion HF; auto.
  - inversion HF; subst. constructor; auto.
Qed.

Lemma Subseq_increasing (l1 l2 : list number) :
  Subseq l1 l2 -> increasing l2 = true -> increasing l1 = true.
Proof.
  induction 1 as [|x l1 l2 Hs IH|x l1 l2 Hs IH]; intros Hinc; auto.
  - apply increasing_cons in Hinc. tauto.
  - apply increasing_cons in Hinc. destruct Hinc as [Hall Hl].
    apply increasing_cons. split; auto.
    eapply Subseq_Forall; eassumption.
Qed.

Lemma Subseq_nil_l {A : Type} (l : list A) : Subseq [] l.
Proof. induction l; constructor; auto. Qed.

(** ** What one iteration and the whole loop push *)

Lemma band_body_pushed (b : Band.t) (st : Loop.t) :
  Loop.slices (band_body b st) = Loop.slices st \/
  exists s, Loop.slices (band_body b st) = Loop.slices st ++ [s]
            /\ Slice.rate s = Band.rate b
            /\ positive_amount s.
Proof.
  unfold band_body.
  destruct (Num.gtb _ (Fin 0)) eqn:Hpos.
  - right. eexists. split; [reflexivity|]. split; [reflexivity|]. exact Hpos.
  - left. reflexivity.
Qed.

Lemma for_bands_pushed (bands : list Band.t) :
  forall st, exists new,
    Loop.slices (for_bands bands st) = Loop.slices st ++ new
    /\ Subseq (map Slice.rate new) (map Band.rate bands)
    /\ Forall positive_amount new.
Proof.
  induction bands as [|b rest IH]; intros st.
  - exists []. simpl. rewrite app_nil_r. repeat split; constructor.
  - simpl.
    destruct (band_body_pushed b st) as [Hsame | [s [Hpush [Hrate Hpos]]]];
      destruct (Num.leb (Loop.remaining (band_body b st)) (Fin 0)).
    + exists []. rewrite Hsame, app_nil_r. simpl.
      repeat split; [apply Subseq_nil_l | constructor].
    + destruct (IH (band_body b st)) as [new [Hnew [Hsub Hall]]].
      exists new. rewrite Hnew, Hsame.
      repeat split; [constructor; exact Hsub | exact Hall].
    + exists [s]. rewrite Hpush. simpl. rewrite Hrate.
      repeat split; [constructor; apply Subseq_nil_l | repeat constructor; exact Hpos].
    + destruct (IH (band_body b st)) as [new [Hnew [Hsub Hall]]].
      exists (s :: new). rewrite Hnew, Hpush, <- app_assoc. simpl. rewrite Hrate.
      repeat split; [constructor; exact Hsub | constructor; assumption].
Qed.

(** C4, as the code has it: for every income and every band sequence,
    every slice returned by [calcProgressiveTax] has an amount above
    zero, and the slices come in band order, each with the rate of its
    band: their rates are the band rates with the untaxed bands left
    out.  The slice rates are therefore strictly increasing whenever the
    band rates are. *)
Theorem slices_positive_in_band_order (income : number) (bands : list Band.t) :
  let r := calcProgressiveTax income bands in
  Forall positive_amount (TaxResult.slices r)
  /\ Subseq (map Slice.rate (TaxResult.slices r)) (map Band.rate bands)
  /\ (increasing (map Band.rate bands) = true ->
      increasing (map Slice.rate (TaxResult.slices r)) = true).
Proof.
  unfold calcProgressiveTax. cbn zeta. simpl TaxResult.slices.
  destruct (for_bands_pushed bands
              {| Loop.remaining := Num.max (Fin 0) income; Loop.lastCap := Fin 0;
                 Loop.total := Fin 0; Loop.slices := [] |}) as [new [Hnew [Hsub Hall]]].
  simpl in Hnew. rewrite Hnew.
  split; [exact Hall|]. split; [exact Hsub|].
  intros Hinc. eapply Subseq_increasing; eassumption.
Qed.

(** The bands of the new Indian regime have increasing rates, and so
    have the slices of an income of 1,200,000. *)
Lemma slices_positive_in_band_order_india :
  increasing (map Band.rate (india_new_bands None)) = true
  /\ increasing
       (map Slice.rate
          (TaxResult.slices
             (calcProgressiveTax (Fin 1200000) (india_new_bands None)))) = true.
Proof.
  split; [reflexivity|].
  apply (slices_positive_in_band_order (Fin 1200000) (india_new_bands None)).
  reflexivity.
Defined.

(** C4, as worded, fails: with a rate of 0.5 up to 100 and 0.25 above,
    an income of 150 is sliced at 0.5 and then at 0.25. *)
Lemma slices_not_always_increasing :
  let bands := [Band.mk (Some (Fin 100)) (Fin 0.5); Band.mk None (Fin 0.25)] in
  map Slice.rate (TaxResult.slices (calcProgressiveTax (Fin 150) bands))
    = [Fin 0.5; Fin 0.25]
  /\ increasing
       (map Slice.rate (TaxResult.slices (calcProgressiveTax (Fin 150) bands)))
     = false.
Proof. split; reflexivity. Qed.

(** ** Completeness of the slicing *)

Lemma increasing_caps_ends_unbounded (bands : list Band.t) :
  forall prev, increasing_caps prev bands = true -> ends_unbounded bands = true.
Proof.
  induction bands as [|b rest IH]; intros prev H; simpl in *.
  - discriminate.
  - destruct (Band.upto b) as [[u| | | ]|]; destruct rest; try discriminate; auto.
    apply andb_true_iff in H. destruct H as [_ H]. eapply IH; eassumption.
Qed.

Lemma sum_amounts_snoc (l : list Slice.t) (s : Slice.t) :
  sum_amounts (l ++ [s]) = (sum_amounts l + Slice.amount s)%js.
Proof. unfold sum_amounts. rewrite fold_left_app. reflexivity. Qed.

Lemma same_fin_plus (x : number) (a m b : Q) :
  x =j= Fin a -> a + m == b -> (x + Fin m)%js =j= Fin b.
Proof.
  destruct x; simpl; try contradiction. intros H1 H2. rewrite H1. exact H2.
Qed.

Lemma same_fin_eq (x : number) (a b : Q) :
  x =j= Fin a -> a == b -> x =j= Fin b.
Proof.
  destruct x; simpl; try contradiction. intros H1 H2. rewrite H1. exact H2.
Qed.

(** *** One iteration on a finite state

    With [remaining = r] and [lastCap = c] finite, a band with a finite
    upper bound [u] has room [u - c].  The three lemmas below are the
    three ways through the body; the two after them are the same for an
    unbounded band, whose room is [Infinity]. *)

Ltac body_cases :=
  unfold band_body, take, mkState;
  cbn [Band.upto Band.rate Loop.remaining Loop.lastCap Loop.total Loop.slices];
  cbv [Num.max Num.min Num.sub Num.add Num.neg Num.leb Num.ltb Num.gtb
       Num.Infinity nullish];
  q_split; try reflexivity; try lra.

Lemma band_body_all (u r c : Q) (rho t : number) (s : list Slice.t) :
  0 < r -> r <= u - c ->
  band_body (Band.mk (Some (Fin u)) rho) (mkState (Fin r) (Fin c) t s)
  = take r (Fin u) rho r t s.
Proof. intros H1 H2. body_cases. Qed.

Lemma band_body_room (u r c : Q) (rho t : number) (s : list Slice.t) :
  0 < u - c -> u - c < r ->
  band_body (Band.mk (Some (Fin u)) rho) (mkState (Fin r) (Fin c) t s)
  = take (u + - c) (Fin u) rho r t s.
Proof. intros H1 H2. body_cases. Qed.

Lemma band_body_none (u r c : Q) (rho t : number) (s : list Slice.t) :
  r <= 0 \/ u - c <= 0 ->
  band_body (Band.mk (Some (Fin u)) rho) (mkState (Fin r) (Fin c) t s)
  = mkState (Fin r) (Fin c) t s.
Proof. intros H. body_cases. Qed.

Lemma band_body_unbounded (r c : Q) (rho t : number) (s : list Slice.t) :
  0 < r ->
  band_body (Band.mk None rho) (mkState (Fin r) (Fin c) t s)
  = take r PInf rho r t s.
Proof. intros H. body_cases. Qed.

Lemma band_body_unbounded_none (r c : Q) (rho t : number) (s : list Slice.t) :
  r <= 0 ->
  band_body (Band.mk None rho) (mkState (Fin r) (Fin c) t s)
  = mkState (Fin r) (Fin c) t s.
Proof. intros H. body_cases. Qed.

(** The [break] test on a finite [remaining]. *)
Lemma break_test (r : Q) (c t : number) (s : list Slice.t) :
  (Loop.remaining (mkState (Fin r) c t s) <=? Fin 0)%js = Qleb r 0.
Proof. reflexivity. Qed.

Lemma break_test_take (m r : Q) (u rho t : number) (s : list Slice.t) :
  (Loop.remaining (take m u rho r t s) <=? Fin 0)%js = Qleb (r + - m) 0.
Proof. reflexivity. Qed.


(** *** What the loop leaves of the income *)









(** ** Monotonicity of the tax *)

Lemma increasing_caps_finite (bands : list Band.t) :
  forall prev, increasing_caps prev bands = true ->
               forallb finite_cap bands = true.
Proof.
  induction bands as [|b rest IH]; intros prev H; simpl in *.
  - reflexivity.
  - unfold finite_cap at 1.
    destruct (Band.upto b) as [[u| | | ]|]; destruct rest; try discriminate; auto.
    apply andb_true_iff in H. destruct H as [_ H]. simpl. eapply IH; eassumption.
Qed.

Lemma take_fin (m u rho r t : Q) (s : list Slice.t) :
  take m (Fin u) (Fin rho) r (Fin t) s
  = mkState (Fin (r + - m)) (Fin u) (Fin (t + m * rho))
      (s ++ [Slice.mk (Fin m) (Fin rho) (Fin (m * rho))]).
Proof. reflexivity. Qed.

Lemma total_take (m rho r t : Q) (u : number) (s : list Slice.t) :
  Loop.total (take m u (Fin rho) r (Fin t) s) = Fin (t + m * rho).
Proof. reflexivity. Qed.

Lemma fraction_rate_inv (u : option number) (rho : number) :
  fraction_rate (Band.mk u rho) = true ->
  exists p, rho = Fin p /\ 0 <= p /\ p <= 1.
Proof.
  unfold fraction_rate. cbn [Band.rate]. destruct rho; try discriminate.
  intros H. apply andb_true_iff in H. destruct H as [H0 H1].
  exists q. destruct (Qleb_spec 0 q); try discriminate.
  destruct (Qleb_spec q 1); try discriminate. auto.
Qed.

(** The loop never lowers a finite [total]. *)
Lemma for_bands_total_grows (bands : list Band.t) :
  forall (r c t : Q) (s : list Slice.t),
    forallb finite_cap bands = true ->
    forallb fraction_rate bands = true ->
    0 <= r ->
    exists T, Loop.total (for_bands bands (mkState (Fin r) (Fin c) (Fin t) s)) = Fin T
              /\ t <= T.
Proof.
  induction bands as [|[[[u| | | ]|] rho] rest IH]; intros r c t s Hcaps Hrates Hr;
    simpl in Hcaps; try discriminate; cbn [for_bands]; cbv zeta.
  - exists t. split; [reflexivity|lra].
  - simpl in Hrates. apply andb_true_iff in Hrates. destruct Hrates as [Hrho Hrates].
    apply fraction_rate_inv in Hrho. destruct Hrho as [p [-> [Hp0 Hp1]]].
    destruct (Qlt_le_dec 0 r) as [Hpos|Hzero];
      [destruct (Qlt_le_dec 0 (u - c)) as [Hroom|Hnoroom];
       [destruct (Qlt_le_dec (u - c) r) as [Hmore|Hall]|]|].
    + rewrite band_body_room by assumption. rewrite break_test_take.
      destruct (Qleb_spec (r + - (u + - c)) 0); [lra|].
      rewrite take_fin.
      destruct (IH (r + - (u + - c)) u (t + (u + - c) * p)
                  (s ++ [Slice.mk (Fin (u + - c)) (Fin p) (Fin ((u + - c) * p))]))
        as [T [HT Hle]]; [assumption|assumption|lra|].
      exists T. split; [exact HT|].
      assert (0 <= (u + - c) * p) by (apply Qmult_le_0_compat; lra). lra.
    + rewrite band_body_all by assumption. rewrite break_test_take.
      destruct (Qleb_spec (r + - r) 0); [|lra].
      rewrite total_take. eexists. split; [reflexivity|].
      assert (0 <= r * p) by (apply Qmult_le_0_compat; lra). lra.
    + rewrite band_body_none by (right; assumption). rewrite break_test.
      destruct (Qleb_spec r 0); [lra|].
      apply IH; assumption.
    + rewrite band_body_none by (left; assumption). rewrite break_test.
      destruct (Qleb_spec r 0); [|lra].
      exists t. split; [reflexivity|lra].
  - simpl in Hrates. apply andb_true_iff in Hrates. destruct Hrates as [Hrho Hrates].
    apply fraction_rate_inv in Hrho. destruct Hrho as [p [-> [Hp0 Hp1]]].
    destruct (Qlt_le_dec 0 r) as [Hpos|Hzero].
    + rewrite band_body_unbounded by assumption. rewrite break_test_take.
      destruct (Qleb_spec (r + - r) 0); [|lra].
      rewrite total_take. eexists. split; [reflexivity|].
      assert (0 <= r * p) by (apply Qmult_le_0_compat; lra). lra.
    + rewrite band_body_unbounded_none by assumption. rewrite break_test.
      destruct (Qleb_spec r 0); [|lra].
      exists t. split; [reflexivity|lra].
Qed.

(** Two runs of the loop over the same bands from the same [lastCap]:
    the one with more [remaining] adds at least as much to [total]. *)
Lemma for_bands_total_mono (bands : list Band.t) :
  forall (x y c tx ty : Q) (sx sy : list Slice.t),
    forallb finite_cap bands = true ->
    forallb fraction_rate bands = true ->
    0 <= x -> x <= y ->
    exists X Y,
      Loop.total (for_bands bands (mkState (Fin x) (Fin c) (Fin tx) sx)) = Fin X
      /\ Loop.total (for_bands bands (mkState (Fin y) (Fin c) (Fin ty) sy)) = Fin Y
      /\ X - tx <= Y - ty.
Proof.
  induction bands as [|[[[u| | | ]|] rho] rest IH];
    intros x y c tx ty sx sy Hcaps Hrates Hx Hxy;
    pose proof Hcaps as Hcaps'; pose proof Hrates as Hrates';
    simpl in Hcaps; try discriminate; cbn [for_bands]; cbv zeta.
  - exists tx, ty. repeat split; lra.
  - simpl in Hrates. apply andb_true_iff in Hrates. destruct Hrates as [Hrho Hrates].
    apply fraction_rate_inv in Hrho. destruct Hrho as [p [-> [Hp0 Hp1]]].
    destruct (Qlt_le_dec 0 x) as [Hpos|Hzero];
      [destruct (Qlt_le_dec 0 (u - c)) as [Hroom|Hnoroom];
       [destruct (Qlt_le_dec (u - c) x) as [Hmore|Hall]|]|].
    + (* both runs fill the band and go on *)
      rewrite !band_body_room by (assumption || lra). rewrite !break_test_take.
      destruct (Qleb_spec (x + - (u + - c)) 0); [lra|].
      destruct (Qleb_spec (y + - (u + - c)) 0); [lra|].
      rewrite !take_fin.
      destruct (IH (x + - (u + - c)) (y + - (u + - c)) u
                  (tx + (u + - c) * p) (ty + (u + - c) * p)
                  (sx ++ [Slice.mk (Fin (u + - c)) (Fin p) (Fin ((u + - c) * p))])
                  (sy ++ [Slice.mk (Fin (u + - c)) (Fin p) (Fin ((u + - c) * p))]))
        as [X [Y [HX [HY Hle]]]]; [assumption|assumption|lra|lra|].
      exists X, Y. repeat split; [exact HX|exact HY|lra].
    + (* the smaller income ends in this band *)
      rewrite (band_body_all u x) by assumption. rewrite break_test_take.
      destruct (Qleb_spec (x + - x) 0); [|lra].
      rewrite total_take.
      destruct (Qlt_le_dec (u - c) y) as [Hymore|Hyall].
      * rewrite band_body_room by assumption. rewrite break_test_take.
        destruct (Qleb_spec (y + - (u + - c)) 0); [lra|].
        rewrite take_fin.
        destruct (for_bands_total_grows rest (y + - (u + - c)) u
                    (ty + (u + - c) * p)
                    (sy ++ [Slice.mk (Fin (u + - c)) (Fin p) (Fin ((u + - c) * p))]))
          as [Y [HY Hle]]; [assumption|assumption|lra|].
        exists (tx + x * p), Y. repeat split; [exact HY|].
        assert (x * p <= (u + - c) * p) by (apply Qmult_le_compat_r; lra). lra.
      * rewrite band_body_all by (assumption || lra). rewrite break_test_take.
        destruct (Qleb_spec (y + - y) 0); [|lra].
        rewrite total_take.
        exists (tx + x * p), (ty + y * p). repeat split.
        assert (x * p <= y * p) by (apply Qmult_le_compat_r; lra). lra.
    + (* the band has no room: both runs skip it *)
      rewrite !band_body_none by (right; assumption). rewrite !break_test.
      destruct (Qleb_spec x 0); [lra|]. destruct (Qleb_spec y 0); [lra|].
      apply IH; assumption.
    + (* nothing left of the smaller income *)
      rewrite (band_body_none u x) by (left; assumption). rewrite break_test.
      destruct (Qleb_spec x 0); [|lra].
      destruct (for_bands_total_grows (Band.mk (Some (Fin u)) (Fin p) :: rest)
                  y c ty sy) as [Y [HY Hle]]; [assumption|assumption|lra|].
      cbn [for_bands] in HY. cbv zeta in HY.
      exists tx, Y. repeat split; [exact HY|lra].
  - simpl in Hrates. apply andb_true_iff in Hrates. destruct Hrates as [Hrho Hrates].
    apply fraction_rate_inv in Hrho. destruct Hrho as [p [-> [Hp0 Hp1]]].
    destruct (Qlt_le_dec 0 x) as [Hpos|Hzero].
    + rewrite !band_body_unbounded by (assumption || lra). rewrite !break_test_take.
      destruct (Qleb_spec (x + - x) 0); [|lra].
      destruct (Qleb_spec (y + - y) 0); [|lra].
      rewrite !total_take.
      exists (tx + x * p), (ty + y * p). repeat split.
      assert (x * p <= y * p) by (apply Qmult_le_compat_r; lra). lra.
    + rewrite (band_body_unbounded_none x) by assumption. rewrite break_test.
      destruct (Qleb_spec x 0); [|lra].
      destruct (for_bands_total_grows (Band.mk None (Fin p) :: rest)
                  y c ty sy) as [Y [HY Hle]]; [assumption|assumption|lra|].
      cbn [for_bands] in HY. cbv zeta in HY.
      exists tx, Y. repeat split; [exact HY|lra].
Qed.

Lemma max_zero_fin (x : Q) : Num.max (Fin 0) (Fin x) = Fin (clamp x).
Proof. unfold clamp. js_cases; reflexivity. Qed.

(** C5. Monotonicity: over a valid band partition whose rates are
    fractions in [0, 1] (the data model of a band), and for finite
    incomes [x <= y], the tax of [x] is at most the tax of [y]. *)
Theorem tax_monotone (bands : list Band.t) (x y : Q) :
  valid_partition bands = true ->
  forallb fraction_rate bands = true ->
  x <= y ->
  (TaxResult.tax (calcProgressiveTax (Fin x) bands)
   <=? TaxResult.tax (calcProgressiveTax (Fin y) bands))%js = true.
Proof.
  intros Hvalid Hrates Hxy.
  unfold calcProgressiveTax. cbv zeta. cbn [TaxResult.tax].
  rewrite !max_zero_fin.
  destruct (for_bands_total_mono bands (clamp x) (clamp y) 0 0 0 [] [])
    as [X [Y [HX [HY Hle]]]].
  - eapply increasing_caps_finite; exact Hvalid.
  - exact Hrates.
  - unfold clamp; q_split; lra.
  - unfold clamp; q_split; lra.
  - unfold mkState in HX, HY. rewrite HX, HY.
    cbn [Num.leb]. destruct (Qleb_spec X Y); [reflexivity|lra].
Qed.

(** The US single-filer bands at 50,000 and 90,000. *)
Lemma tax_monotone_us_single :
  valid_partition (us_bands None) = true
  /\ forallb fraction_rate (us_bands None) = true
  /\ (TaxResult.tax (calcProgressiveTax (Fin 50000) (us_bands None))
      <=? TaxResult.tax (calcProgressiveTax (Fin 90000) (us_bands None)))%js
     = true.
Proof.
  split; [reflexivity|]. split; [reflexivity|].
  apply (tax_monotone (us_bands None) 50000 90000).
  - reflexivity.
  - reflexivity.
  - unfold Qle; simpl; lia.
Defined.

(** ** Boundary exactness on a two-band partition *)

(** C2, as the code has it: over [{upto: 100, rate: 0}, {upto: null,
    rate: 0.1}] an income of 100 yields tax 0, all of it in the first
    band; an income of 150 yields tax 5 with two slices, 100 at rate 0
    and 50 at rate 0.1.  A band with rate 0 that receives income gets a
    slice like any other. *)
Theorem boundary_exactness :
  let at100 := calcProgressiveTax (Fin 100) two_bands in
  let at150 := calcProgressiveTax (Fin 150) two_bands in
  TaxResult.tax at100 =j= Fin 0
  /\ map Slice.amount (TaxResult.slices at100) = [Fin 100]
  /\ TaxResult.tax at150 =j= Fin 5
  /\ map Slice.amount (TaxResult.slices at150) = [Fin 100; Fin 50]
  /\ map Slice.rate (TaxResult.slices at150) = [Fin 0; Fin 0.1]
  /\ Forall2 Num.same (map Slice.tax (TaxResult.slices at150)) [Fin 0; Fin 5].
Proof.
  cbv zeta. repeat split; try reflexivity.
  vm_compute. repeat constructor.
Qed.

(** C2, as worded, fails: at 150 the result does not consist of exactly
    one slice. *)
Lemma boundary_two_slices :
  ~ (exists s, TaxResult.slices (calcProgressiveTax (Fin 150) two_bands) = [s]
               /\ Slice.amount s =j= Fin 50).
Proof.
  intros [s [H _]]. vm_compute in H. discriminate H.
Qed.

(** ** The UK personal allowance *)

Lemma calcProgressiveTax_unfold (income : Q) (bands : list Band.t) :
  calcProgressiveTax (Fin income) bands
  = let st := for_bands bands (mkState (Fin (clamp income)) (Fin 0) (Fin 0) []) in
    TaxResult.mk (Loop.total st) (Loop.slices st).
Proof. unfold calcProgressiveTax. rewrite max_zero_fin. reflexivity. Qed.

(** Run one iteration of the loop on a finite state, the side conditions
    being linear facts about the income. *)
Ltac run_band :=
  cbn [for_bands]; cbv zeta;
  first
    [ rewrite band_body_room by lra
    | rewrite band_body_all by lra
    | rewrite band_body_none by (right; lra)
    | rewrite band_body_none by (left; lra)
    | rewrite band_body_unbounded by lra
    | rewrite band_body_unbounded_none by lra ];
  rewrite ?break_test_take, ?break_test;
  match goal with
  | |- context [Qleb ?a ?b] => destruct (Qleb_spec a b); [try lra | try lra]
  end;
  rewrite ?take_fin.

Lemma uk_tax_basic_band (allowance income : Q) :
  0 < allowance -> allowance < income -> income <= 50270 ->
  exists T, TaxResult.tax (calcProgressiveTax (Fin income) (uk_bands (uk_params allowance)))
            = Fin T
            /\ T == (income - allowance) * 0.20.
Proof.
  intros Ha Hlo Hhi.
  rewrite calcProgressiveTax_unfold. cbv zeta. cbn [TaxResult.tax].
  assert (Hc : clamp income = income) by (unfold clamp; q_split; [reflexivity|lra]).
  rewrite Hc. unfold uk_bands, uk_params.
  cbn [opt_field personalAllowance nullish].
  run_band. run_band.
  eexists. split; [reflexivity|]. lra.
Qed.

Lemma uk_tax_within_allowance (allowance income : Q) :
  0 <= income -> income <= allowance ->
  exists T, TaxResult.tax (calcProgressiveTax (Fin income) (uk_bands (uk_params allowance)))
            = Fin T
            /\ T == 0.
Proof.
  intros Hlo Hhi.
  rewrite calcProgressiveTax_unfold. cbv zeta. cbn [TaxResult.tax].
  assert (Hc : clamp income = income) by (unfold clamp; q_split; [reflexivity|lra]).
  rewrite Hc. unfold uk_bands, uk_params.
  cbn [opt_field personalAllowance nullish].
  destruct (Qlt_le_dec 0 income).
  - run_band. eexists. split; [reflexivity|]. lra.
  - run_band. eexists. split; [reflexivity|]. lra.
Qed.

(** C3, as the code has it: raising [personalAllowance] from 12,570 to
    15,000 moves the upper bound of the first UK band from 12,570 to
    15,000 and leaves the other bands alone.  For an income above 12,570
    and below 50,270 the old band tax is [(income - 12570) * 0.20].
    When the income is at least 15,000 the new band tax is
    [(income - 15000) * 0.20], and the tax falls by
    (15,000 - 12,570) * 0.20 = 486 to within a millionth (in binary64
    the two products are rounded, and the difference is not always the
    double 486).  An income of at most 15,000 is wholly inside the new
    allowance: the new tax is 0 and the tax falls by all there was of
    it. *)
Theorem personal_allowance_shift (income : Q) :
  12570 < income -> income < 50270 ->
  map Band.upto (uk_bands (uk_params 12570))
    = [Some (Fin 12570); Some (Fin 50270); Some (Fin 125140); None]
  /\ map Band.upto (uk_bands (uk_params 15000))
    = [Some (Fin 15000); Some (Fin 50270); Some (Fin 125140); None]
  /\ uk_tax 12570 income =j= ((Fin income - Fin 12570) * Fin 0.20)%js
  /\ (15000 <= income ->
      uk_tax 15000 income =j= ((Fin income - Fin 15000) * Fin 0.20)%js
      /\ (Fin (486 - rounding_margin)
          <=? uk_tax 12570 income - uk_tax 15000 income)%js = true
      /\ (uk_tax 12570 income - uk_tax 15000 income
          <=? Fin (486 + rounding_margin))%js = true)
  /\ (income <= 15000 ->
      uk_tax 15000 income =j= Fin 0
      /\ (uk_tax 12570 income - uk_tax 15000 income)%js
         =j= uk_tax 12570 income).
Proof.
  intros Hlo Hhi. split; [reflexivity|]. split; [reflexivity|].
  unfold uk_tax, rounding_margin.
  destruct (uk_tax_basic_band 12570 income) as [T0 [HT0 E0]]; try lra.
  rewrite HT0.
  split; [cbn; lra|].
  split; intros Hinc.
  - destruct (Qle_lt_or_eq _ _ Hinc) as [Hlt|Heq].
    + destruct (uk_tax_basic_band 15000 income) as [T1 [HT1 E1]]; try lra.
      rewrite HT1. cbn.
      split; [lra|]. split.
      * destruct (Qleb_spec (486 - (1 # 1000000)) (T0 + - T1)); [reflexivity|lra].
      * destruct (Qleb_spec (T0 + - T1) (486 + (1 # 1000000))); [reflexivity|lra].
    + destruct (uk_tax_within_allowance 15000 income) as [T1 [HT1 E1]]; try lra.
      rewrite HT1. cbn.
      split; [lra|]. split.
      * destruct (Qleb_spec (486 - (1 # 1000000)) (T0 + - T1)); [reflexivity|lra].
      * destruct (Qleb_spec (T0 + - T1) (486 + (1 # 1000000))); [reflexivity|lra].
  - destruct (uk_tax_within_allowance 15000 income) as [T1 [HT1 E1]]; try lra.
    rewrite HT1. cbn. split; lra.
Qed.

(** At 20,000 the tax falls from 1,486 to 1,000. *)
Lemma personal_allowance_shift_at_20000 :
  uk_tax 12570 20000 =j= Fin 1486 /\ uk_tax 15000 20000 =j= Fin 1000.
Proof.
  assert (H1 : 12570 < 20000) by (unfold Qlt; simpl; lia).
  assert (H2 : 20000 < 50270) by (unfold Qlt; simpl; lia).
  assert (H3 : 15000 <= 20000) by (unfold Qle; simpl; lia).
  destruct (personal_allowance_shift 20000 H1 H2) as [_ [_ [Hold [Hnew _]]]].
  destruct (Hnew H3) as [Hnew' _].
  split.
  - eapply same_trans; [exact Hold|]. vm_compute. reflexivity.
  - eapply same_trans; [exact Hnew'|]. vm_compute. reflexivity.
Defined.

(** C3, as worded, fails: 13,000 lies above 12,570 and below 50,270, and
    there the tax falls from 86 to 0, not by 486. *)
Lemma personal_allowance_shift_fails_at_13000 :
  12570 < 13000 /\ 13000 < 50270
  /\ (uk_tax 12570 13000 - uk_tax 15000 13000)%js =j= Fin 86
  /\ ~ (uk_tax 12570 13000 - uk_tax 15000 13000)%js
       =j= Fin ((15000 - 12570) * 0.20).
Proof.
  split; [reflexivity|]. split; [reflexivity|]. split.
  - vm_compute. reflexivity.
  - vm_compute. discriminate.
Qed.

(** ** Payroll extras *)

Lemma add_same (x x' y y' : number) :
  x =j= x' -> y =j= y' -> (x + y)%js =j= (x' + y')%js.
Proof.
  destruct x, x', y, y'; simpl; try contradiction; auto.
  intros H1 H2. rewrite H1, H2. reflexivity.
Qed.

Lemma add_zero_r (x : number) : (x + Fin 0)%js =j= x.
Proof. destruct x; simpl; auto. lra. Qed.

(** C6. Capped surcharge: in the US regime with [includeFICA] enabled,
    the first extra is the Social Security item and its amount is
    0.062 * min(gross, 168600), [gross] being the gross annual income;
    at a gross income of 200,000 that is 168,600 * 0.062 and not
    200,000 * 0.062. *)
Theorem social_security_capped (st : State.t) :
  State.country st = us ->
  includeFICA (State.params st) = Some true ->
  exists ss medicare,
    extras st = [ExtraItem.mk "Social Security (6.2%)" ss; medicare]
    /\ ss =j= (Fin 0.062 * Num.min (grossAnnual st) (Fin 168600))%js
    /\ (grossAnnual st =j= Fin 200000 ->
        ss =j= Fin (168600 * 0.062) /\ ~ ss =j= Fin (200000 * 0.062)).
Proof.
  intros Hus Hfica.
  unfold extras, cfg. rewrite Hus. cbn [taxConfigs TaxConfig.extras].
  unfold us_extras. cbn [opt_field]. rewrite Hfica. cbn [truthy app].
  do 2 eexists. split; [reflexivity|]. split; [apply mul_comm|].
  destruct (grossAnnual st) as [g| | | ]; simpl; try contradiction.
  intros Hg. js_cases; lra.
Qed.

Lemma social_security_capped_at_200000 :
  exists ss medicare,
    extras us_at_200000 = [ExtraItem.mk "Social Security (6.2%)" ss; medicare]
    /\ ss =j= Fin 10453.2.
Proof.
  destruct (social_security_capped us_at_200000 eq_refl eq_refl)
    as [ss [medicare [Hitems [_ Hcap]]]].
  exists ss, medicare. split; [exact Hitems|].
  destruct (Hcap (same_refl (Fin 200000))) as [Hss _].
  eapply same_fin_eq; [exact Hss|reflexivity].
Defined.

(** C7. Two-tier surcharge: in the UK regime with [includeNI] enabled,
    the only extra is National Insurance, and its amount is
    0.08 * max(0, min(gross, 50270) - 12570) + 0.02 * max(0, gross - 50270)
    with [gross] the gross annual income, before deductions; the taxable
    income passed to [extras] plays no part. *)
Theorem national_insurance_two_tier (st : State.t) :
  State.country st = uk ->
  includeNI (State.params st) = Some true ->
  exists ni,
    extras st = [ExtraItem.mk "National Insurance (employee)" ni]
    /\ ni =j= (Fin 0.08
                * Num.max (Fin 0)
                    (Num.min (grossAnnual st) (Fin 50270) - Fin 12570)
               + Fin 0.02 * Num.max (Fin 0) (grossAnnual st - Fin 50270))%js
    /\ forall taxable : number,
         uk_extras taxable (grossAnnual st) (Some (State.params st)) = extras st.
Proof.
  intros Huk Hni.
  unfold extras, cfg. rewrite Huk. cbn [taxConfigs TaxConfig.extras].
  unfold uk_extras. cbn [opt_field]. rewrite Hni. cbn [truthy app].
  eexists. split; [reflexivity|]. split; [|reflexivity].
  apply add_same; apply mul_comm.
Qed.

(** With 5,000 of deductions, 60,000 of gross income owes 3,016 on the
    lower tier and 194.60 on the upper. *)
Lemma national_insurance_at_60000 :
  exists ni,
    extras uk_at_60000 = [ExtraItem.mk "National Insurance (employee)" ni]
    /\ ni =j= Fin 3210.6.
Proof.
  destruct (national_insurance_two_tier uk_at_60000 eq_refl eq_refl)
    as [ni [Hitems [Hni _]]].
  exists ni. split; [exact Hitems|].
  eapply same_trans; [exact Hni|]. vm_compute. reflexivity.
Defined.

(** C9. Extras switched off: for every taxable and gross income, the US
    [extras] returns the empty list when [includeFICA] is not [true] and
    the UK [extras] returns the empty list when [includeNI] is not
    [true]; the component then has no extras and its total tax is the
    progressive band tax alone. *)
Theorem extras_disabled (taxable gross : number) (p : option Params)
  (st : State.t) :
  (opt_field includeFICA p <> Some true -> us_extras taxable gross p = [])
  /\ (opt_field includeNI p <> Some true -> uk_extras taxable gross p = [])
  /\ (State.country st = us /\ includeFICA (State.params st) <> Some true
      \/ State.country st = uk /\ includeNI (State.params st) <> Some true ->
      extras st = [] /\ totalTax st =j= incomeTax st).
Proof.
  assert (Hoff : forall x : option bool, x <> Some true -> truthy x = false)
    by (intros [[|]|] H; try reflexivity; contradiction H; reflexivity).
  split; [|split].
  - intros H. unfold us_extras. rewrite (Hoff _ H). reflexivity.
  - intros H. unfold uk_extras. rewrite (Hoff _ H). reflexivity.
  - intros H.
    assert (Hnil : extras st = []).
    { unfold extras, cfg.
      destruct H as [[Hc H]|[Hc H]]; rewrite Hc; cbn [taxConfigs TaxConfig.extras].
      - unfold us_extras. cbn [opt_field]. rewrite (Hoff _ H). reflexivity.
      - unfold uk_extras. cbn [opt_field]. rewrite (Hoff _ H). reflexivity. }
    split; [exact Hnil|].
    unfold totalTax, extraTotal. rewrite Hnil. cbn [fold_left].
    apply add_zero_r.
Qed.

(** A single filer with 50,000 and FICA switched off owes the band tax,
    6,080, and nothing else. *)
Lemma extras_disabled_us_50000 :
  extras us_without_fica = [] /\ totalTax us_without_fica =j= Fin 6080.
Proof.
  destruct (extras_disabled (Fin 0) (Fin 0) None us_without_fica)
    as [_ [_ H]].
  destruct H as [Hnil Htot].
  - left. split; [reflexivity|discriminate].
  - split; [exact Hnil|].
    eapply same_trans; [exact Htot|]. vm_compute. reflexivity.
Defined.

(** ** Negative gross income *)

Lemma calcProgressiveTax_nonpositive (g : Q) (bands : list Band.t) :
  g <= 0 -> calcProgressiveTax (Fin g) bands = TaxResult.mk (Fin 0) [].
Proof.
  intros Hg. rewrite calcProgressiveTax_unfold. cbv zeta.
  assert (Hc : clamp g <= 0) by (unfold clamp; q_split; lra).
  revert Hc. generalize (clamp g). intros r Hr.
  destruct bands as [|[upto rho] rest]; [reflexivity|].
  cbn [for_bands]. cbv zeta.
  assert (Hbody : band_body (Band.mk upto rho) (mkState (Fin r) (Fin 0) (Fin 0) [])
                  = mkState (Fin r) (Fin 0) (Fin 0) []).
  { destruct upto as [[u| | | ]|]; body_cases. }
  rewrite Hbody, break_test.
  destruct (Qleb_spec r 0); [reflexivity|lra].
Qed.

(** C10. Gross income reaches [extras] unclamped: in the US regime with
    [includeFICA] enabled, a negative gross annual income [g] gives a
    Social Security item of min(g, 168600) * 0.062 = g * 0.062 and a
    Medicare item of g * 0.0145, both below zero, although
    [calcProgressiveTax] clamps a negative income to zero and returns no
    tax and no slice for it, whatever the bands. *)
Theorem negative_gross_extras (st : State.t) (g : Q) :
  State.country st = us ->
  includeFICA (State.params st) = Some true ->
  grossAnnual st = Fin g ->
  g < 0 ->
  exists ss medicare : Q,
    extras st = [ExtraItem.mk "Social Security (6.2%)" (Fin ss);
                 ExtraItem.mk "Medicare (1.45%)" (Fin medicare)]
    /\ ss == g * 0.062 /\ ss < 0
    /\ medicare == g * 0.0145 /\ medicare < 0
    /\ forall bands, calcProgressiveTax (Fin g) bands = TaxResult.mk (Fin 0) [].
Proof.
  intros Hus Hfica Hgross Hneg.
  unfold extras, cfg. rewrite Hus. cbn [taxConfigs TaxConfig.extras].
  unfold us_extras. cbn [opt_field]. rewrite Hfica, Hgross. cbn [truthy app].
  assert (Hmin : Num.min (Fin g) (Fin 168600) = Fin g)
    by (js_cases; [reflexivity|lra]).
  rewrite Hmin. cbn [Num.mul].
  do 2 eexists. split; [reflexivity|].
  repeat split; try lra.
  intros bands. apply calcProgressiveTax_nonpositive. lra.
Qed.

(** A gross income of -1,000 is charged -62 and -14.50, and no income
    tax. *)
Lemma negative_gross_extras_at_minus_1000 :
  exists ss medicare : Q,
    extras us_negative_gross
    = [ExtraItem.mk "Social Security (6.2%)" (Fin ss);
       ExtraItem.mk "Medicare (1.45%)" (Fin medicare)]
    /\ ss == -62 /\ medicare == -14.5
    /\ incomeTax us_negative_gross = Fin 0.
Proof.
  assert (Hneg : -1000 < 0) by (unfold Qlt; simpl; lia).
  destruct (negative_gross_extras us_negative_gross (-1000)
              eq_refl eq_refl eq_refl Hneg)
    as [ss [medicare [Hitems [Hss [_ [Hmed _]]]]]].
  exists ss, medicare. split; [exact Hitems|].
  split; [rewrite Hss; reflexivity|].
  split; [rewrite Hmed; reflexivity|]. reflexivity.
Defined.

(** ** The effective rate *)

(** C8. Guarded effective rate: [effRate] is [totalTax / grossAnnual]
    when [grossAnnual] is above zero and exactly 0 when [grossAnnual] is
    0, whatever the regime, its parameters and the deductions; the
    division is never evaluated with a zero divisor. *)
Theorem effective_rate_guarded (st : State.t) :
  ((grossAnnual st >? Fin 0)%js = true ->
   effRate st = (totalTax st / grossAnnual st)%js)
  /\ (grossAnnual st =j= Fin 0 -> effRate st = Fin 0)
  /\ ((grossAnnual st >? Fin 0)%js = false -> effRate st = Fin 0).
Proof.
  unfold effRate. repeat split.
  - intros H. rewrite H. reflexivity.
  - destruct (grossAnnual st) as [g| | | ]; simpl; try contradiction.
    intros Hg. js_cases; [lra|reflexivity].
  - intros H. rewrite H. reflexivity.
Qed.

(** At the initial state the effective rate is 80,000 / 1,200,000; at a
    gross income of zero it is 0. *)
Lemma effective_rate_guarded_examples :
  effRate (initial_state india_new) =j= Fin (1 # 15)
  /\ effRate india_at_zero = Fin 0.
Proof.
  split.
  - destruct (effective_rate_guarded (initial_state india_new)) as [H _].
    rewrite (H eq_refl). vm_compute. reflexivity.
  - destruct (effective_rate_guarded india_at_zero) as [_ [H _]].
    apply H. vm_compute. reflexivity.
Defined.

(** * Further properties of the engine *)

(** ** The tax and the slices agree *)

Lemma sum_taxes_snoc (l : list Slice.t) (s : Slice.t) :
  sum_taxes (l ++ [s]) = (sum_taxes l + Slice.tax s)%js.
Proof. unfold sum_taxes. rewrite fold_left_app. reflexivity. Qed.

Lemma band_body_accounts (b : Band.t) (st : Loop.t) :
  Loop.total st = sum_taxes (Loop.slices st) ->
  Forall slice_tax_ok (Loop.slices st) ->
  Loop.total (band_body b st) = sum_taxes (Loop.slices (band_body b st))
  /\ Forall slice_tax_ok (Loop.slices (band_body b st)).
Proof.
  intros Htot Hall. unfold band_body.
  destruct (Num.gtb _ (Fin 0)); cbn [Loop.total Loop.slices].
  - rewrite sum_taxes_snoc, Htot. split; [reflexivity|].
    apply Forall_app. split; [exact Hall|].
    constructor; [reflexivity|constructor].
  - split; assumption.
Qed.

Lemma for_bands_accounts (bands : list Band.t) :
  forall st,
    Loop.total st = sum_taxes (Loop.slices st) ->
    Forall slice_tax_ok (Loop.slices st) ->
    Loop.total (for_bands bands st) = sum_taxes (Loop.slices (for_bands bands st))
    /\ Forall slice_tax_ok (Loop.slices (for_bands bands st)).
Proof.
  induction bands as [|b rest IH]; intros st Htot Hall; cbn [for_bands]; cbv zeta.
  - split; assumption.
  - destruct (band_body_accounts b st Htot Hall) as [Htot' Hall'].
    destruct (Num.leb _ (Fin 0)); [split; assumption|].
    apply IH; assumption.
Qed.

Lemma Subseq_length {A : Type} (l1 l2 : list A) :
  Subseq l1 l2 -> (List.length l1 <= List.length l2)%nat.
Proof. induction 1; simpl; lia. Qed.

(** X1. Whatever the income and the bands (special values included),
    the tax returned by [calcProgressiveTax] is the sum of the taxes of
    the slices it returns, added in order from 0; the tax of every slice
    is its amount times its rate; and there are at most as many slices
    as bands. *)
Theorem tax_is_sum_of_slice_taxes (income : number) (bands : list Band.t) :
  let r := calcProgressiveTax income bands in
  TaxResult.tax r = sum_taxes (TaxResult.slices r)
  /\ Forall slice_tax_ok (TaxResult.slices r)
  /\ (List.length (TaxResult.slices r) <= List.length bands)%nat.
Proof.
  cbv zeta. unfold calcProgressiveTax. cbv zeta. cbn [TaxResult.tax TaxResult.slices].
  set (st0 := {| Loop.remaining := Num.max (Fin 0) income; Loop.lastCap := Fin 0;
                 Loop.total := Fin 0; Loop.slices := [] |}).
  destruct (for_bands_accounts bands st0) as [Htot Hall];
    [reflexivity|constructor|].
  split; [exact Htot|]. split; [exact Hall|].
  destruct (for_bands_pushed bands st0) as [new [Hnew [Hsub _]]].
  rewrite Hnew. cbn [st0 Loop.slices app].
  apply Subseq_length in Hsub. rewrite !length_map in Hsub. exact Hsub.
Qed.

(** ** Nothing to tax *)

Lemma band_body_nothing_left (b : Band.t) (st : Loop.t) :
  (Loop.remaining st >? Fin 0)%js = false -> band_body b st = st.
Proof.
  destruct st as [r c t s], b as [upto rho]. unfold band_body.
  cbn [Band.upto Band.rate Loop.remaining Loop.lastCap Loop.total Loop.slices].
  intros Hr.
  assert (Hno : (Num.max (Fin 0) (Num.min r (nullish upto Num.Infinity - c))
                 >? Fin 0)%js = false).
  { destruct r as [r| | | ]; try discriminate Hr;
      destruct upto as [[u| | | ]|];
      destruct c as [c| | | ]; js_cases; try reflexivity; try discriminate; lra. }
  rewrite Hno. reflexivity.
Qed.

Lemma for_bands_nothing_left (bands : list Band.t) (st : Loop.t) :
  (Loop.remaining st >? Fin 0)%js = false -> for_bands bands st = st.
Proof.
  intros Hr. induction bands as [|b rest IH]; cbn [for_bands]; cbv zeta.
  - reflexivity.
  - rewrite (band_body_nothing_left b st Hr).
    destruct (Num.leb _ (Fin 0)); [reflexivity|exact IH].
Qed.

(** X2. An income that is not above zero (zero, negative, [-Infinity] or
    [NaN]) is charged nothing: whatever the bands, [calcProgressiveTax]
    returns tax 0 and an empty slice list. *)
Theorem nothing_to_tax (income : number) (bands : list Band.t) :
  (income >? Fin 0)%js = false ->
  calcProgressiveTax income bands = TaxResult.mk (Fin 0) [].
Proof.
  intros Hinc. unfold calcProgressiveTax. cbv zeta.
  rewrite for_bands_nothing_left; [reflexivity|].
  cbn [Loop.remaining].
  destruct income as [g| | | ]; js_cases; try reflexivity; try discriminate; lra.
Qed.

Lemma nothing_to_tax_nan :
  calcProgressiveTax NaN (us_bands None) = TaxResult.mk (Fin 0) []
  /\ calcProgressiveTax (Fin (-5)) [] = TaxResult.mk (Fin 0) [].
Proof.
  split.
  - apply (nothing_to_tax NaN (us_bands None)). reflexivity.
  - apply (nothing_to_tax (Fin (-5)) []). reflexivity.
Defined.

(** ** Inputs that binary64 holds exactly *)

Lemma safe_bands_finite (bands : list Band.t) :
  forallb safe_band bands = true -> forallb finite_cap bands = true.
Proof.
  induction bands as [|b rest IH]; simpl; [reflexivity|].
  intros H. apply andb_true_iff in H. destruct H as [Hb Hrest].
  rewrite (IH Hrest), andb_true_r.
  unfold safe_band in Hb. unfold finite_cap.
  destruct (Band.upto b) as [[u| | | ]|]; try discriminate; reflexivity.
Qed.

Lemma modest_inputs_finite (st : State.t) :
  modest_inputs st = true -> finite_inputs st = true.
Proof.
  unfold modest_inputs, finite_inputs, finite_allowance.
  intros H. repeat (apply andb_true_iff in H; destruct H as [H ?]).
  destruct (State.amount st) as [a| | | ]; try discriminate.
  destruct (State.standardDeduction st) as [sd| | | ]; try discriminate.
  destruct (State.otherDeductions st) as [od| | | ]; try discriminate.
  destruct (personalAllowance (State.params st)) as [[pa| | | ]|];
    try discriminate; reflexivity.
Qed.

(** ** Bounds on the tax and on the sliced amounts *)

(** The ways through one iteration on a finite state with a band
    bounded by [u]: the band is filled and the loop goes on, the band
    takes all that remains, the band has no room, nothing remains. *)
Ltac finite_band u c r :=
  destruct (Qlt_le_dec 0 r) as [Hpos|Hzero];
  [ destruct (Qlt_le_dec 0 (u - c)) as [Hroom|Hnoroom];
    [ destruct (Qlt_le_dec (u - c) r) as [Hmore|Hall];
      [ rewrite band_body_room by assumption; rewrite break_test_take;
        destruct (Qleb_spec (r + - (u + - c)) 0); [lra|]
      | rewrite band_body_all by assumption; rewrite break_test_take;
        destruct (Qleb_spec (r + - r) 0); [|lra] ]
    | rewrite band_body_none by (right; assumption); rewrite break_test;
      destruct (Qleb_spec r 0); [lra|] ]
  | rewrite band_body_none by (left; assumption); rewrite break_test;
    destruct (Qleb_spec r 0); [|lra] ].

(** The same for an unbounded band: it takes all that remains, or
    nothing remains. *)
Ltac unbounded_band r :=
  destruct (Qlt_le_dec 0 r) as [Hpos|Hzero];
  [ rewrite band_body_unbounded by assumption; rewrite break_test_take;
    destruct (Qleb_spec (r + - r) 0); [|lra]
  | rewrite band_body_unbounded_none by assumption; rewrite break_test;
    destruct (Qleb_spec r 0); [|lra] ].

Lemma for_bands_total_bounded (bands : list Band.t) :
  forall (r c t : Q) (s : list Slice.t),
    forallb finite_cap bands = true ->
    forallb fraction_rate bands = true ->
    0 <= r ->
    exists T, Loop.total (for_bands bands (mkState (Fin r) (Fin c) (Fin t) s)) = Fin T
              /\ t <= T /\ T <= t + r.
Proof.
  induction bands as [|[[[u| | | ]|] rho] rest IH]; intros r c t s Hcaps Hrates Hr;
    simpl in Hcaps; try discriminate; cbn [for_bands]; cbv zeta.
  - exists t. split; [reflexivity|lra].
  - simpl in Hrates. apply andb_true_iff in Hrates. destruct Hrates as [Hrho Hrates].
    apply fraction_rate_inv in Hrho. destruct Hrho as [p [-> [Hp0 Hp1]]].
    finite_band u c r.
    + rewrite take_fin.
      destruct (IH (r + - (u + - c)) u (t + (u + - c) * p)
                  (s ++ [Slice.mk (Fin (u + - c)) (Fin p) (Fin ((u + - c) * p))]))
        as [T [HT [Hlo Hhi]]]; [assumption|assumption|lra|].
      exists T. split; [exact HT|].
      assert (0 <= (u + - c) * p) by (apply Qmult_le_0_compat; lra).
      assert ((u + - c) * p <= (u + - c) * 1) by (apply Qmult_le_l; lra).
      lra.
    + rewrite total_take. eexists. split; [reflexivity|].
      assert (0 <= r * p) by (apply Qmult_le_0_compat; lra).
      assert (r * p <= r * 1) by (apply Qmult_le_l; lra).
      lra.
    + apply IH; assumption.
    + exists t. split; [reflexivity|lra].
  - simpl in Hrates. apply andb_true_iff in Hrates. destruct Hrates as [Hrho Hrates].
    apply fraction_rate_inv in Hrho. destruct Hrho as [p [-> [Hp0 Hp1]]].
    unbounded_band r.
    + rewrite total_take. eexists. split; [reflexivity|].
      assert (0 <= r * p) by (apply Qmult_le_0_compat; lra).
      assert (r * p <= r * 1) by (apply Qmult_le_l; lra).
      lra.
    + exists t. split; [reflexivity|lra].
Qed.

(** In exact arithmetic.  With finite upper bounds (or none) and rates that are fractions
    in [0, 1], the tax of a finite income [income >= 0] is a finite
    amount between 0 and the income, whether or not the bands form a
    valid partition. *)
Lemma tax_between_zero_and_income_exact (income : Q) (bands : list Band.t) :
  0 <= income ->
  forallb finite_cap bands = true ->
  forallb fraction_rate bands = true ->
  exists T, TaxResult.tax (calcProgressiveTax (Fin income) bands) = Fin T
            /\ 0 <= T /\ T <= income.
Proof.
  intros Hinc Hcaps Hrates.
  rewrite calcProgressiveTax_unfold. cbv zeta. cbn [TaxResult.tax].
  assert (Hc : clamp income == income) by (unfold clamp; q_split; lra).
  destruct (for_bands_total_bounded bands (clamp income) 0 0 [])
    as [T [HT [Hlo Hhi]]]; [assumption|assumption|lra|].
  exists T. split; [exact HT|lra].
Qed.

(** X3. When the income and the upper bounds are safe integers and every
    rate is a fraction in [0, 1], the tax of an income [income >= 0] is
    a finite amount between 0 and the income, whether or not the bands
    form a valid partition. *)
Theorem tax_between_zero_and_income (income : Q) (bands : list Band.t) :
  safe_integer income = true ->
  0 <= income ->
  forallb safe_band bands = true ->
  forallb fraction_rate bands = true ->
  exists T, TaxResult.tax (calcProgressiveTax (Fin income) bands) = Fin T
            /\ 0 <= T /\ T <= income.
Proof.
  intros _ Hinc Hsafe Hrates.
  apply tax_between_zero_and_income_exact;
    [exact Hinc | apply safe_bands_finite; exact Hsafe | exact Hrates].
Qed.

Lemma tax_between_zero_and_income_uk :
  exists T, TaxResult.tax (calcProgressiveTax (Fin 60000) (uk_bands None)) = Fin T
            /\ 0 <= T /\ T <= 60000.
Proof.
  apply (tax_between_zero_and_income 60000 (uk_bands None)).
  - reflexivity.
  - unfold Qle; simpl; lia.
  - reflexivity.
  - reflexivity.
Defined.

Lemma for_bands_amounts_bounded (bands : list Band.t) :
  forall (r c : Q) (t : number) (s : list Slice.t) (a : Q),
    forallb finite_cap bands = true ->
    0 <= r ->
    sum_amounts s =j= Fin a ->
    exists A,
      sum_amounts (Loop.slices (for_bands bands (mkState (Fin r) (Fin c) t s)))
      =j= Fin A
      /\ a <= A /\ A <= a + r.
Proof.
  induction bands as [|[[[u| | | ]|] rho] rest IH]; intros r c t s a Hcaps Hr Hs;
    simpl in Hcaps; try discriminate; cbn [for_bands]; cbv zeta.
  - exists a. split; [exact Hs|lra].
  - finite_band u c r.
    + unfold take.
      destruct (IH (r + - (u + - c)) u (t + Fin (u + - c) * rho)%js
                  (s ++ [Slice.mk (Fin (u + - c)) rho (Fin (u + - c) * rho)%js])
                  (a + (u + - c)))
        as [A [HA [Hlo Hhi]]]; [assumption|lra| |].
      * rewrite sum_amounts_snoc. cbn [Slice.amount].
        eapply same_fin_plus; [eassumption|reflexivity].
      * exists A. split; [exact HA|lra].
    + unfold take, mkState. cbn [Loop.slices].
      rewrite sum_amounts_snoc. cbn [Slice.amount].
      exists (a + r). split; [|lra].
      eapply same_fin_plus; [eassumption|reflexivity].
    + apply IH; assumption.
    + exists a. split; [exact Hs|lra].
  - unbounded_band r.
    + unfold take, mkState. cbn [Loop.slices].
      rewrite sum_amounts_snoc. cbn [Slice.amount].
      exists (a + r). split; [|lra].
      eapply same_fin_plus; [eassumption|reflexivity].
    + exists a. split; [exact Hs|lra].
Qed.

(** In exact arithmetic.  Band lists that are no partition are not rejected, and the loop
    never assigns more than there is: with finite upper bounds (or
    none), in any order and with or without an unbounded band, the
    amounts of the slices of a finite income [income >= 0] add up to at
    most the income. *)
Lemma slices_sum_at_most_income_exact (income : Q) (bands : list Band.t) :
  0 <= income ->
  forallb finite_cap bands = true ->
  exists A,
    sum_amounts (TaxResult.slices (calcProgressiveTax (Fin income) bands))
    =j= Fin A
    /\ 0 <= A /\ A <= income.
Proof.
  intros Hinc Hcaps.
  rewrite calcProgressiveTax_unfold. cbv zeta. cbn [TaxResult.slices].
  assert (Hc : clamp income == income) by (unfold clamp; q_split; lra).
  destruct (for_bands_amounts_bounded bands (clamp income) 0 (Fin 0) [] 0)
    as [A [HA [Hlo Hhi]]]; [assumption|lra|reflexivity|].
  exists A. split; [exact HA|lra].
Qed.

(** X4. Band lists that are no partition are not rejected, and the loop
    never assigns more than there is: with upper bounds that are safe
    integers, in any order and with or without an unbounded band, the
    amounts of the slices of a safe-integer income [income >= 0] add up
    to at most the income. *)
Theorem slices_sum_at_most_income (income : Q) (bands : list Band.t) :
  safe_integer income = true ->
  0 <= income ->
  forallb safe_band bands = true ->
  exists A,
    sum_amounts (TaxResult.slices (calcProgressiveTax (Fin income) bands))
    =j= Fin A
    /\ 0 <= A /\ A <= income.
Proof.
  intros _ Hinc Hsafe.
  apply slices_sum_at_most_income_exact;
    [exact Hinc | apply safe_bands_finite; exact Hsafe].
Qed.

(** Without a last unbounded band, 150 over a single band up to 100 is
    sliced to 100 only. *)
Lemma slices_sum_at_most_income_capped :
  exists A,
    sum_amounts
      (TaxResult.slices
         (calcProgressiveTax (Fin 150) [Band.mk (Some (Fin 100)) (Fin 0.5)]))
    =j= Fin A
    /\ 0 <= A /\ A <= 150.
Proof.
  apply (slices_sum_at_most_income 150 [Band.mk (Some (Fin 100)) (Fin 0.5)]).
  - reflexivity.
  - unfold Qle; simpl; lia.
  - reflexivity.
Defined.

(** ** The loop computes the portion of every band *)

Lemma taxed_true (a : Q) (rho : number) : 0 < a -> taxed (a, rho) = true.
Proof. intros H. unfold taxed. cbn [fst]. destruct (Qltb_spec 0 a); [reflexivity|lra]. Qed.

Lemma portion_room (c u x : Q) :
  c < u -> u < x -> portion c (Some u) x == u - c.
Proof. intros H1 H2. unfold portion, clamp. q_split; lra. Qed.

Lemma portion_all (c u x : Q) :
  c < x -> x <= u -> portion c (Some u) x == x - c.
Proof. intros H1 H2. unfold portion, clamp. q_split; lra. Qed.

Lemma portion_open (c x : Q) : c < x -> portion c None x == x - c.
Proof. intros H. unfold portion, clamp. q_split; lra. Qed.

(** Bands that start at or above the income have no portion of it. *)
Lemma portions_beyond (bands : list Band.t) :
  forall lo x : Q,
    x <= lo -> increasing_caps (Some lo) bands = true ->
    filter taxed (band_portions lo x bands) = [].
Proof.
  induction bands as [|[[[u| | | ]|] rho] rest IH]; intros lo x Hx Hinc;
    cbn [increasing_caps Band.upto] in Hinc; try discriminate;
    destruct rest as [|b' rest']; try discriminate.
  - apply andb_true_iff in Hinc. destruct Hinc as [Hlo Hinc].
    destruct (Qltb_spec lo u); try discriminate.
    cbn [band_portions Band.upto Band.rate filter].
    assert (Hno : taxed (portion lo (Some u) x, rho) = false)
      by (unfold taxed, portion, clamp; cbn [fst]; q_split; try reflexivity; lra).
    rewrite Hno. apply IH; [lra|exact Hinc].
  - cbn [band_portions Band.upto Band.rate filter].
    assert (Hno : taxed (portion lo None x, rho) = false)
      by (unfold taxed, portion, clamp; cbn [fst]; q_split; try reflexivity; lra).
    rewrite Hno. reflexivity.
Qed.

Lemma for_bands_portions (bands : list Band.t) :
  forall (c r x : Q) (t : number) (s : list Slice.t),
    increasing_caps (Some c) bands = true ->
    r == x - c -> 0 < r ->
    exists new,
      Loop.slices (for_bands bands (mkState (Fin r) (Fin c) t s)) = s ++ new
      /\ Forall2 slice_of_portion new (filter taxed (band_portions c x bands)).
Proof.
  induction bands as [|[[[u| | | ]|] rho] rest IH]; intros c r x t s Hinc Hr Hpos';
    cbn [for_bands band_portions Band.upto Band.rate filter]; cbv zeta;
    cbn [increasing_caps Band.upto] in Hinc; try discriminate;
    destruct rest as [|b' rest']; try discriminate.
  - apply andb_true_iff in Hinc. destruct Hinc as [Hlo Hinc].
    destruct (Qltb_spec c u); try discriminate.
    finite_band u c r; try (exfalso; lra).
    + rewrite taxed_true by (rewrite portion_room; lra).
      destruct (IH u (r + - (u + - c)) x (t + Fin (u + - c) * rho)%js
                  (s ++ [Slice.mk (Fin (u + - c)) rho (Fin (u + - c) * rho)%js]))
        as [new [Hnew Hall']]; [exact Hinc|lra|lra|].
      unfold take. rewrite Hnew, <- app_assoc. cbn [app].
      eexists. split; [reflexivity|].
      constructor; [|exact Hall'].
      split; [|reflexivity]. cbn [Slice.amount fst Num.same].
      rewrite portion_room; lra.
    + rewrite taxed_true by (rewrite portion_all; lra).
      rewrite (portions_beyond (b' :: rest') u x) by (lra || exact Hinc).
      unfold take, mkState. cbn [Loop.slices].
      eexists. split; [reflexivity|].
      constructor; [|constructor].
      split; [|reflexivity]. cbn [Slice.amount fst Num.same].
      rewrite portion_all; lra.
  - unbounded_band r; try (exfalso; lra).
    rewrite taxed_true by (rewrite portion_open; lra).
    unfold take, mkState. cbn [Loop.slices].
    eexists. split; [reflexivity|].
    constructor; [|constructor].
    split; [|reflexivity]. cbn [Slice.amount fst Num.same].
    rewrite portion_open; lra.
Qed.

(** In exact arithmetic.  Over a partition whose upper bounds are finite, positive and
    strictly increasing and whose last band alone is unbounded, the loop
    with its [remaining] and [lastCap] computes the textbook slicing:
    the slices of a finite income are, in order, the bands that hold a
    positive part of the income, each with the part of the income
    between the upper bound of the band before it (0 for the first) and
    its own, and with the rate of the band. *)
Lemma slices_are_band_portions_exact (income : Q) (bands : list Band.t) :
  increasing_caps (Some 0) bands = true ->
  Forall2 slice_of_portion
    (TaxResult.slices (calcProgressiveTax (Fin income) bands))
    (filter taxed (band_portions 0 income bands)).
Proof.
  intros Hinc.
  destruct (Qlt_le_dec 0 income) as [Hpos|Hneg].
  - rewrite calcProgressiveTax_unfold. cbv zeta. cbn [TaxResult.slices].
    destruct (for_bands_portions bands 0 (clamp income) income (Fin 0) [])
      as [new [Hnew Hall]];
      [exact Hinc | unfold clamp; q_split; lra | unfold clamp; q_split; lra |].
    rewrite Hnew. exact Hall.
  - rewrite calcProgressiveTax_nonpositive by exact Hneg.
    rewrite portions_beyond by assumption. constructor.
Qed.

(** X5. Over a partition whose upper bounds are positive, strictly
    increasing safe integers and whose last band alone is unbounded, the
    loop with its [remaining] and [lastCap] computes the textbook
    slicing of a safe-integer income: the slices are, in order, the
    bands that hold a positive part of the income, each with the part of
    the income between the upper bound of the band before it (0 for the
    first) and its own, and with the rate of the band. *)
Theorem slices_are_band_portions (income : Q) (bands : list Band.t) :
  safe_integer income = true ->
  forallb safe_band bands = true ->
  increasing_caps (Some 0) bands = true ->
  Forall2 slice_of_portion
    (TaxResult.slices (calcProgressiveTax (Fin income) bands))
    (filter taxed (band_portions 0 income bands)).
Proof.
  intros _ _ Hinc. apply slices_are_band_portions_exact. exact Hinc.
Qed.

(** The old Indian regime at 600,000: 250,000 at 0, 250,000 at 0.05 and
    100,000 at 0.20. *)
Lemma slices_are_band_portions_india_old :
  filter taxed (band_portions 0 600000 (india_old_bands None))
  = [(250000, Fin 0); (250000, Fin 0.05); (100000, Fin 0.20)]
  /\ Forall2 slice_of_portion
       (TaxResult.slices (calcProgressiveTax (Fin 600000) (india_old_bands None)))
       (filter taxed (band_portions 0 600000 (india_old_bands None))).
Proof.
  split; [vm_compute; reflexivity|].
  apply (slices_are_band_portions 600000 (india_old_bands None)); reflexivity.
Defined.

(** ** The registry *)

(** X6. The bands of every regime form a partition, whatever the
    parameters (either filing status in the US; in the UK a personal
    allowance that is absent or strictly between 0 and 50,270): the
    upper bounds are finite, positive and strictly increasing, the last
    band alone is unbounded, every rate is a fraction in [0, 1] and the
    rates are strictly increasing. *)
Theorem registry_bands_are_partitions (c : CountryKey) (p : Params) :
  partition_params c p = true ->
  let bs := TaxConfig.bands (taxConfigs c) (Some p) in
  increasing_caps (Some 0) bs = true
  /\ valid_partition bs = true
  /\ forallb fraction_rate bs = true
  /\ increasing (map Band.rate bs) = true.
Proof.
  destruct p as [f fica ni pa]. cbv zeta.
  destruct c; cbn [taxConfigs TaxConfig.bands partition_params personalAllowance].
  - intros _. repeat split; reflexivity.
  - intros _. repeat split; reflexivity.
  - intros _. destruct f as [[|]|]; repeat split; reflexivity.
  - destruct pa as [[a| | | ]|]; try discriminate.
    + intros H. apply andb_true_iff in H. destruct H as [H0 H1].
      destruct (Qltb_spec 0 a); try discriminate.
      destruct (Qltb_spec a 50270); try discriminate.
      unfold uk_bands, valid_partition.
      cbn [opt_field personalAllowance nullish increasing_caps Band.upto map
           forallb increasing Band.rate].
      destruct (Qltb_spec 0 a); [|lra].
      destruct (Qltb_spec a 50270); [|lra].
      repeat split; reflexivity.
    + intros _. repeat split; reflexivity.
Qed.

Lemma registry_bands_are_partitions_uk_15000 :
  valid_partition (uk_bands (uk_params 15000)) = true
  /\ increasing (map Band.rate (uk_bands (uk_params 15000))) = true.
Proof.
  destruct (registry_bands_are_partitions uk
              {| filing := None; includeFICA := None; includeNI := Some true;
                 personalAllowance := Some (Fin 15000) |} eq_refl)
    as [_ [Hvalid [_ Hrates]]].
  split; [exact Hvalid|exact Hrates].
Defined.

(** With a finite personal allowance, in range or not, the bands still
    have finite upper bounds, fraction rates and a last unbounded band. *)
Lemma registry_bands_finite (c : CountryKey) (p : Params) :
  finite_allowance p = true ->
  let bs := TaxConfig.bands (taxConfigs c) (Some p) in
  forallb finite_cap bs = true
  /\ forallb fraction_rate bs = true
  /\ ends_unbounded bs = true.
Proof.
  destruct p as [f fica ni pa]. cbv zeta. unfold finite_allowance.
  cbn [personalAllowance].
  destruct c; cbn [taxConfigs TaxConfig.bands]; intros Hpa.
  - repeat split; reflexivity.
  - repeat split; reflexivity.
  - destruct f as [[|]|]; repeat split; reflexivity.
  - destruct pa as [[a| | | ]|]; try discriminate; repeat split; reflexivity.
Qed.

(** ** The figures of the component on finite inputs *)

Lemma finite_inputs_inv (st : State.t) :
  finite_inputs st = true ->
  exists g d b : Q,
    grossAnnual st = Fin g /\ deductions st = Fin d /\ taxableBase st = Fin b
    /\ 0 <= d /\ 0 <= b /\ (0 <= g -> b <= g) /\ (g <= 0 -> b == 0)
    /\ finite_allowance (State.params st) = true.
Proof.
  destruct st as [c a per sd od p]. unfold finite_inputs.
  cbn [State.amount State.standardDeduction State.otherDeductions State.params].
  intros H. repeat (apply andb_true_iff in H; destruct H as [H ?]).
  destruct a as [a| | | ]; try discriminate.
  destruct sd as [sd| | | ]; try discriminate.
  destruct od as [od| | | ]; try discriminate.
  unfold taxableBase, deductions, grossAnnual.
  cbn [State.period State.amount State.standardDeduction State.otherDeductions].
  destruct per; js_cases;
    do 3 eexists; (split; [reflexivity|]); (split; [reflexivity|]);
    (split; [reflexivity|]); repeat split; try assumption; lra.
Qed.

Lemma incomeTax_unfold (st : State.t) :
  incomeTax st
  = TaxResult.tax
      (calcProgressiveTax (taxableBase st)
         (TaxConfig.bands (taxConfigs (State.country st)) (Some (State.params st)))).
Proof. reflexivity. Qed.

Lemma slices_unfold (st : State.t) :
  slices st
  = TaxResult.slices
      (calcProgressiveTax (taxableBase st)
         (TaxConfig.bands (taxConfigs (State.country st)) (Some (State.params st)))).
Proof. reflexivity. Qed.







Lemma extraTotal_finite (st : State.t) (g : Q) :
  grossAnnual st = Fin g ->
  exists E : Q, extraTotal st = Fin E /\ (0 <= g -> 0 <= E).
Proof.
  intros Hg. unfold extraTotal, extras, cfg. rewrite Hg.
  destruct (State.country st); cbn [taxConfigs TaxConfig.extras].
  - exists 0. split; [reflexivity|lra].
  - exists 0. split; [reflexivity|lra].
  - unfold us_extras. cbn [opt_field].
    destruct (includeFICA (State.params st)) as [[|]|]; cbn [truthy app fold_left ExtraItem.amount].
    + js_cases; eexists; (split; [reflexivity|]); lra.
    + exists 0. split; [reflexivity|lra].
    + exists 0. split; [reflexivity|lra].
  - unfold uk_extras. cbn [opt_field].
    destruct (includeNI (State.params st)) as [[|]|]; cbn [truthy app fold_left ExtraItem.amount].
    + js_cases; eexists; (split; [reflexivity|]); lra.
    + exists 0. split; [reflexivity|lra].
    + exists 0. split; [reflexivity|lra].
Qed.

(** In exact arithmetic.  No [NaN] and no infinity on finite inputs: for every regime and
    parameters, the total tax, the net income and the effective rate
    are finite numbers.  The net income is never negative, and it is
    the gross income less the total tax whenever the total tax does not
    exceed the gross income; with a non-negative gross income the total
    tax and the effective rate are not negative either. *)
Lemma figures_are_finite_exact (st : State.t) :
  finite_inputs st = true ->
  exists g tt net eff : Q,
    grossAnnual st = Fin g /\ totalTax st = Fin tt
    /\ netAnnual st = Fin net /\ effRate st = Fin eff
    /\ 0 <= net
    /\ (tt <= g -> net + tt == g)
    /\ (0 <= g -> 0 <= tt /\ 0 <= eff).
Proof.
  intros Hfin.
  destruct (finite_inputs_inv st Hfin)
    as [g [d [b [Hg [Hd [Hb [Hd0 [Hb0 [Hbg [Hb00 Hpa]]]]]]]]]].
  destruct (registry_bands_finite (State.country st) (State.params st) Hpa)
    as [Hcaps [Hrates _]].
  assert (HT : exists T : Q, incomeTax st = Fin T /\ 0 <= T).
  { rewrite incomeTax_unfold, Hb, calcProgressiveTax_unfold. cbv zeta.
    cbn [TaxResult.tax].
    destruct (for_bands_total_bounded _ (clamp b) 0 0 [] Hcaps Hrates)
      as [T [HT [Hlo Hhi]]]; [unfold clamp; q_split; lra|].
    exists T. split; [exact HT|lra]. }
  destruct HT as [T [HT HT0]].
  destruct (extraTotal_finite st g Hg) as [E [HE HE0]].
  assert (Htt : totalTax st = Fin (T + E))
    by (unfold totalTax; rewrite HT, HE; reflexivity).
  exists g, (T + E).
  unfold netAnnual, effRate. rewrite Htt, Hg.
  js_unfold. cbv [Num.div].
  destruct (Qleb_spec 0 (g + - (T + E))); destruct (Qltb_spec 0 g);
    try (destruct (Qeqb_spec g 0); [lra|]);
    do 2 eexists; (split; [reflexivity|]); (split; [reflexivity|]);
    (split; [reflexivity|]); (split; [reflexivity|]);
    (split; [lra|]); (split; [intros; lra|]);
    intros Hg0; (split; [lra|]);
    try (apply Qle_shift_div_l; lra); lra.
Qed.

(** X9. No [NaN] and no infinity on modest inputs: for every regime,
    period and parameters, the total tax, the net income and the
    effective rate are finite numbers; the net income is never
    negative; with a non-negative gross income the total tax and the
    effective rate are not negative either. *)
Theorem figures_are_finite (st : State.t) :
  modest_inputs st = true ->
  exists g tt net eff : Q,
    grossAnnual st = Fin g /\ totalTax st = Fin tt
    /\ netAnnual st = Fin net /\ effRate st = Fin eff
    /\ 0 <= net
    /\ (0 <= g -> 0 <= tt /\ 0 <= eff).
Proof.
  intros H.
  destruct (figures_are_finite_exact st (modest_inputs_finite st H))
    as [g [tt [net [eff [Hg [Htt [Hnet [Heff [Hnet0 [_ Hpos]]]]]]]]]].
  exists g, tt, net, eff. repeat split; try assumption; apply Hpos; assumption.
Qed.

Lemma figures_are_finite_uk :
  exists g tt net eff : Q,
    grossAnnual uk_monthly_5000 = Fin g /\ totalTax uk_monthly_5000 = Fin tt
    /\ netAnnual uk_monthly_5000 = Fin net /\ effRate uk_monthly_5000 = Fin eff
    /\ 0 <= net
    /\ (0 <= g -> 0 <= tt /\ 0 <= eff).
Proof.
  apply (figures_are_finite uk_monthly_5000). reflexivity.
Defined.

(** ** Wider bands never tax more *)

(** Over bands that end unbounded and whose rates are at least [rho],
    what remains is taxed at [rho] at least. *)
Lemma for_bands_total_at_least (bands : list Band.t) :
  forall (rho r c t : Q) (s : list Slice.t),
    ends_unbounded bands = true ->
    rates_from rho bands = true ->
    0 <= rho -> 0 <= r ->
    exists T, Loop.total (for_bands bands (mkState (Fin r) (Fin c) (Fin t) s)) = Fin T
              /\ t + rho * r <= T.
Proof.
  induction bands as [|[[[u| | | ]|] [p| | | ]] rest IH];
    intros rho r c t s Hends Hrates Hrho Hr;
    simpl in Hends; try discriminate;
    cbn [rates_from Band.rate] in Hrates; try discriminate;
    cbn [for_bands]; cbv zeta;
    apply andb_true_iff in Hrates; destruct Hrates as [Hp Hrates];
    destruct (Qleb_spec rho p); try discriminate.
  - finite_band u c r.
    + rewrite take_fin.
      destruct (IH p (r + - (u + - c)) u (t + (u + - c) * p)
                  (s ++ [Slice.mk (Fin (u + - c)) (Fin p) (Fin ((u + - c) * p))]))
        as [T [HT Hlo]]; [assumption|assumption|lra|lra|].
      exists T. split; [exact HT|]. nra.
    + rewrite total_take. eexists. split; [reflexivity|]. nra.
    + destruct (IH p r c t s) as [T [HT Hlo]]; [assumption|assumption|lra|lra|].
      exists T. split; [exact HT|]. nra.
    + exists t. split; [reflexivity|]. nra.
  - unbounded_band r.
    + rewrite total_take. eexists. split; [reflexivity|]. nra.
    + exists t. split; [reflexivity|]. nra.
Qed.

Lemma for_bands_widened (A : list Band.t) :
  forall (B : list Band.t) (rho x cA cB rA rB tA tB : Q) (sA sB : list Slice.t),
    increasing_caps (Some cA) A = true ->
    increasing_caps (Some cB) B = true ->
    widened A B = true ->
    rates_from rho A = true ->
    0 <= rho -> cA <= cB -> cB < x ->
    rA == x - cA -> rB == x - cB ->
    exists TA TB,
      Loop.total (for_bands A (mkState (Fin rA) (Fin cA) (Fin tA) sA)) = Fin TA
      /\ Loop.total (for_bands B (mkState (Fin rB) (Fin cB) (Fin tB) sB)) = Fin TB
      /\ (TB - tB) + rho * (cB - cA) <= TA - tA.
Proof.
  induction A as [|[[[uA| | | ]|] [p| | | ]] A' IH];
    intros [|[[[uB| | | ]|] [q| | | ]] B'] rho x cA cB rA rB tA tB sA sB
           HA HB Hw Hrates Hrho Hc Hx HrA HrB;
    cbn [for_bands]; cbv zeta;
    cbn [increasing_caps Band.upto] in HA, HB; try discriminate;
    cbn [widened same_rate cap_le Band.rate Band.upto andb] in Hw;
    try discriminate;
    cbn [rates_from Band.rate] in Hrates; try discriminate;
    destruct A' as [|a' A'']; try discriminate;
    destruct B' as [|b' B'']; try discriminate;
    try (rewrite andb_false_r in Hw; discriminate).
  - (* a bounded band on both sides *)
    apply andb_true_iff in HA. destruct HA as [HcA HA].
    apply andb_true_iff in HB. destruct HB as [HcB HB].
    apply andb_true_iff in Hw. destruct Hw as [Hw Hw'].
    apply andb_true_iff in Hw. destruct Hw as [Hpq Hu].
    apply andb_true_iff in Hrates. destruct Hrates as [Hp Hrates].
    destruct (Qltb_spec cA uA); try discriminate.
    destruct (Qltb_spec cB uB); try discriminate.
    destruct (Qeqb_spec p q); try discriminate.
    destruct (Qleb_spec uA uB); try discriminate.
    destruct (Qleb_spec rho p); try discriminate.
    destruct (Qlt_le_dec uB x) as [Hbeyond|Hwithin].
    + (* the income lies beyond both bands *)
      rewrite (band_body_room uA rA cA) by lra.
      rewrite (band_body_room uB rB cB) by lra.
      rewrite !break_test_take.
      destruct (Qleb_spec (rA + - (uA + - cA)) 0); [lra|].
      destruct (Qleb_spec (rB + - (uB + - cB)) 0); [lra|].
      rewrite !take_fin.
      destruct (IH (b' :: B'') p x uA uB
                  (rA + - (uA + - cA)) (rB + - (uB + - cB))
                  (tA + (uA + - cA) * p) (tB + (uB + - cB) * q)
                  (sA ++ [Slice.mk (Fin (uA + - cA)) (Fin p) (Fin ((uA + - cA) * p))])
                  (sB ++ [Slice.mk (Fin (uB + - cB)) (Fin q) (Fin ((uB + - cB) * q))]))
        as [TA [TB [HTA [HTB Hle]]]]; try assumption; try lra.
      exists TA, TB. split; [exact HTA|]. split; [exact HTB|].
      assert (E : (uB + - cB) * q == (uB + - cB) * p) by (rewrite <- H1; reflexivity).
      nra.
    + rewrite (band_body_all uB rB cB) by lra. rewrite break_test_take.
      destruct (Qleb_spec (rB + - rB) 0); [|lra].
      rewrite total_take.
      assert (E : rB * q == rB * p) by (rewrite <- H1; reflexivity).
      destruct (Qlt_le_dec uA x) as [Hpast|Hin].
      * (* the narrower band is passed, the wider one holds the income *)
        rewrite (band_body_room uA rA cA) by lra. rewrite break_test_take.
        destruct (Qleb_spec (rA + - (uA + - cA)) 0); [lra|].
        rewrite take_fin.
        destruct (for_bands_total_at_least (a' :: A'') p
                    (rA + - (uA + - cA)) uA (tA + (uA + - cA) * p)
                    (sA ++ [Slice.mk (Fin (uA + - cA)) (Fin p) (Fin ((uA + - cA) * p))]))
          as [TA [HTA Hlo]];
          [eapply increasing_caps_ends_unbounded; exact HA|exact Hrates|lra|lra|].
        exists TA, (tB + rB * q). split; [exact HTA|]. split; [reflexivity|].
        nra.
      * (* both bands hold the income *)
        rewrite (band_body_all uA rA cA) by lra. rewrite break_test_take.
        destruct (Qleb_spec (rA + - rA) 0); [|lra].
        rewrite total_take.
        exists (tA + rA * p), (tB + rB * q). split; [reflexivity|].
        split; [reflexivity|]. nra.
  - (* the last, unbounded band on both sides *)
    apply andb_true_iff in Hw. destruct Hw as [Hw Hw'].
    apply andb_true_iff in Hw. destruct Hw as [Hpq Hu].
    apply andb_true_iff in Hrates. destruct Hrates as [Hp Hrates].
    destruct (Qeqb_spec p q); try discriminate.
    destruct (Qleb_spec rho p); try discriminate.
    rewrite (band_body_unbounded rA cA) by lra.
    rewrite (band_body_unbounded rB cB) by lra.
    rewrite !break_test_take.
    destruct (Qleb_spec (rA + - rA) 0); [|lra].
    destruct (Qleb_spec (rB + - rB) 0); [|lra].
    rewrite !total_take.
    assert (E : rB * q == rB * p) by (rewrite <- H; reflexivity).
    exists (tA + rA * p), (tB + rB * q). split; [reflexivity|].
    split; [reflexivity|]. nra.
Qed.

Lemma widened_tax_le (A B : list Band.t) (income : Q) :
  increasing_caps (Some 0) A = true ->
  increasing_caps (Some 0) B = true ->
  widened A B = true ->
  rates_from 0 A = true ->
  (TaxResult.tax (calcProgressiveTax (Fin income) B)
   <=? TaxResult.tax (calcProgressiveTax (Fin income) A))%js = true.
Proof.
  intros HA HB Hw Hrates.
  destruct (Qlt_le_dec 0 income) as [Hpos|Hneg].
  - rewrite !calcProgressiveTax_unfold. cbv zeta. cbn [TaxResult.tax].
    assert (Hc : clamp income == income) by (unfold clamp; q_split; lra).
    destruct (for_bands_widened A B 0 income 0 0 (clamp income) (clamp income)
                0 0 [] []) as [TA [TB [HTA [HTB Hle]]]];
      try assumption; try lra.
    rewrite HTA, HTB. cbn [Num.leb].
    destruct (Qleb_spec TB TA); [reflexivity|lra].
  - rewrite !calcProgressiveTax_nonpositive by exact Hneg. reflexivity.
Qed.

(** In exact arithmetic.  Filing status: for every finite income, the US band tax of a
    married couple filing jointly is at most that of a single filer. *)
Lemma married_never_pays_more_exact (income : Q) :
  (us_tax married income <=? us_tax single income)%js = true.
Proof.
  unfold us_tax. apply widened_tax_le; reflexivity.
Qed.

(** X11. Filing status: for every income that is a whole number of at
    most a billion in magnitude, the US band tax of a married couple
    filing jointly is at most that of a single filer. *)
Theorem married_never_pays_more (income : Q) :
  modest income = true ->
  (us_tax married income <=? us_tax single income)%js = true.
Proof. intros _. apply married_never_pays_more_exact. Qed.

Lemma married_never_pays_more_at_400000 :
  (us_tax married 400000 <=? us_tax single 400000)%js = true.
Proof. apply (married_never_pays_more 400000). reflexivity. Defined.

(** In exact arithmetic.  Raising the UK personal allowance never raises the band tax:
    for allowances [0 < a <= a' < 50270] and every finite income, the
    tax under [a'] is at most the tax under [a]. *)
Lemma higher_allowance_never_taxes_more_exact (a a' income : Q) :
  0 < a -> a <= a' -> a' < 50270 ->
  (uk_tax a' income <=? uk_tax a income)%js = true.
Proof.
  intros Ha Haa Ha'.
  unfold uk_tax. apply widened_tax_le.
  - unfold uk_bands, uk_params.
    cbn [opt_field personalAllowance nullish increasing_caps Band.upto].
    destruct (Qltb_spec 0 a); [|lra].
    destruct (Qltb_spec a 50270); [reflexivity|lra].
  - unfold uk_bands, uk_params.
    cbn [opt_field personalAllowance nullish increasing_caps Band.upto].
    destruct (Qltb_spec 0 a'); [|lra].
    destruct (Qltb_spec a' 50270); [reflexivity|lra].
  - unfold uk_bands, uk_params.
    cbn [opt_field personalAllowance nullish widened same_rate cap_le
         Band.upto Band.rate].
    destruct (Qleb_spec a a'); [reflexivity|lra].
  - reflexivity.
Qed.

(** X12. Raising the UK personal allowance never raises the band tax:
    for whole allowances [0 < a <= a' < 50270] and every income that is
    a whole number of at most a billion in magnitude, the tax under
    [a'] is at most the tax under [a]. *)
Theorem higher_allowance_never_taxes_more (a a' income : Q) :
  modest a = true -> modest a' = true -> modest income = true ->
  0 < a -> a <= a' -> a' < 50270 ->
  (uk_tax a' income <=? uk_tax a income)%js = true.
Proof.
  intros _ _ _. apply higher_allowance_never_taxes_more_exact.
Qed.

Lemma higher_allowance_never_taxes_more_at_13000 :
  (uk_tax 15000 13000 <=? uk_tax 12570 13000)%js = true.
Proof.
  apply (higher_allowance_never_taxes_more 12570 15000 13000).
  - reflexivity.
  - reflexivity.
  - reflexivity.
  - unfold Qlt; simpl; lia.
  - unfold Qle; simpl; lia.
  - unfold Qlt; simpl; lia.
Defined.

(** ** How the tax grows with the income *)

Lemma rate_within_inv (M : Q) (u : option number) (rho : number) :
  rate_within M (Band.mk u rho) = true ->
  exists p, rho = Fin p /\ 0 <= p /\ p <= M.
Proof.
  unfold rate_within. cbn [Band.rate]. destruct rho; try discriminate.
  intros H. apply andb_true_iff in H. destruct H as [H0 H1].
  exists q. destruct (Qleb_spec 0 q); try discriminate.
  destruct (Qleb_spec q M); try discriminate. auto.
Qed.

Lemma for_bands_total_upper (M : Q) (bands : list Band.t) :
  forall (r c t : Q) (s : list Slice.t),
    forallb finite_cap bands = true ->
    forallb (rate_within M) bands = true ->
    0 <= M -> 0 <= r ->
    exists T, Loop.total (for_bands bands (mkState (Fin r) (Fin c) (Fin t) s)) = Fin T
              /\ t <= T /\ T <= t + M * r.
Proof.
  induction bands as [|[[[u| | | ]|] rho] rest IH]; intros r c t s Hcaps Hrates HM Hr;
    simpl in Hcaps; try discriminate; cbn [for_bands]; cbv zeta.
  - exists t. split; [reflexivity|]. split; [lra|nra].
  - simpl in Hrates. apply andb_true_iff in Hrates. destruct Hrates as [Hrho Hrates].
    apply rate_within_inv in Hrho. destruct Hrho as [p [-> [Hp0 Hp1]]].
    finite_band u c r.
    + rewrite take_fin.
      destruct (IH (r + - (u + - c)) u (t + (u + - c) * p)
                  (s ++ [Slice.mk (Fin (u + - c)) (Fin p) (Fin ((u + - c) * p))]))
        as [T [HT [Hlo Hhi]]]; [assumption|assumption|lra|lra|].
      exists T. split; [exact HT|]. split; nra.
    + rewrite total_take. eexists. split; [reflexivity|]. split; nra.
    + apply IH; assumption.
    + exists t. split; [reflexivity|]. split; [lra|nra].
  - simpl in Hrates. apply andb_true_iff in Hrates. destruct Hrates as [Hrho Hrates].
    apply rate_within_inv in Hrho. destruct Hrho as [p [-> [Hp0 Hp1]]].
    unbounded_band r.
    + rewrite total_take. eexists. split; [reflexivity|]. split; nra.
    + exists t. split; [reflexivity|]. split; [lra|nra].
Qed.

(** Of two runs from the same [lastCap], the one with [y - x] more to
    slice adds at least as much tax, and at most [M * (y - x)] more. *)
Lemma for_bands_total_lipschitz (M : Q) (bands : list Band.t) :
  forall (x y c tx ty : Q) (sx sy : list Slice.t),
    forallb finite_cap bands = true ->
    forallb (rate_within M) bands = true ->
    0 <= M -> 0 <= x -> x <= y ->
    exists X Y,
      Loop.total (for_bands bands (mkState (Fin x) (Fin c) (Fin tx) sx)) = Fin X
      /\ Loop.total (for_bands bands (mkState (Fin y) (Fin c) (Fin ty) sy)) = Fin Y
      /\ X - tx <= Y - ty
      /\ Y - ty <= (X - tx) + M * (y - x).
Proof.
  induction bands as [|[[[u| | | ]|] rho] rest IH];
    intros x y c tx ty sx sy Hcaps Hrates HM Hx Hxy;
    pose proof Hcaps as Hcaps'; pose proof Hrates as Hrates';
    simpl in Hcaps; try discriminate; cbn [for_bands]; cbv zeta.
  - exists tx, ty. repeat split; nra.
  - simpl in Hrates. apply andb_true_iff in Hrates. destruct Hrates as [Hrho Hrates].
    apply rate_within_inv in Hrho. destruct Hrho as [p [-> [Hp0 Hp1]]].
    destruct (Qlt_le_dec 0 x) as [Hpos|Hzero];
      [destruct (Qlt_le_dec 0 (u - c)) as [Hroom|Hnoroom];
       [destruct (Qlt_le_dec (u - c) x) as [Hmore|Hall]|]|].
    + rewrite !band_body_room by (assumption || lra). rewrite !break_test_take.
      destruct (Qleb_spec (x + - (u + - c)) 0); [lra|].
      destruct (Qleb_spec (y + - (u + - c)) 0); [lra|].
      rewrite !take_fin.
      destruct (IH (x + - (u + - c)) (y + - (u + - c)) u
                  (tx + (u + - c) * p) (ty + (u + - c) * p)
                  (sx ++ [Slice.mk (Fin (u + - c)) (Fin p) (Fin ((u + - c) * p))])
                  (sy ++ [Slice.mk (Fin (u + - c)) (Fin p) (Fin ((u + - c) * p))]))
        as [X [Y [HX [HY [Hle Hup]]]]]; [assumption|assumption|lra|lra|lra|].
      exists X, Y. repeat split; [exact HX|exact HY|lra|nra].
    + rewrite (band_body_all u x) by assumption. rewrite break_test_take.
      destruct (Qleb_spec (x + - x) 0); [|lra].
      rewrite total_take.
      destruct (Qlt_le_dec (u - c) y) as [Hymore|Hyall].
      * rewrite band_body_room by assumption. rewrite break_test_take.
        destruct (Qleb_spec (y + - (u + - c)) 0); [lra|].
        rewrite take_fin.
        destruct (for_bands_total_upper M rest (y + - (u + - c)) u
                    (ty + (u + - c) * p)
                    (sy ++ [Slice.mk (Fin (u + - c)) (Fin p) (Fin ((u + - c) * p))]))
          as [Y [HY [Hlo Hhi]]]; [assumption|assumption|lra|lra|].
        exists (tx + x * p), Y. repeat split; [exact HY|nra|nra].
      * rewrite band_body_all by (assumption || lra). rewrite break_test_take.
        destruct (Qleb_spec (y + - y) 0); [|lra].
        rewrite total_take.
        exists (tx + x * p), (ty + y * p). repeat split; nra.
    + rewrite !band_body_none by (right; assumption). rewrite !break_test.
      destruct (Qleb_spec x 0); [lra|]. destruct (Qleb_spec y 0); [lra|].
      apply IH; assumption.
    + rewrite (band_body_none u x) by (left; assumption). rewrite break_test.
      destruct (Qleb_spec x 0); [|lra].
      destruct (for_bands_total_upper M (Band.mk (Some (Fin u)) (Fin p) :: rest)
                  y c ty sy) as [Y [HY [Hlo Hhi]]]; [assumption|assumption|lra|lra|].
      cbn [for_bands] in HY. cbv zeta in HY.
      exists tx, Y. repeat split; [exact HY|lra|nra].
  - simpl in Hrates. apply andb_true_iff in Hrates. destruct Hrates as [Hrho Hrates].
    apply rate_within_inv in Hrho. destruct Hrho as [p [-> [Hp0 Hp1]]].
    destruct (Qlt_le_dec 0 x) as [Hpos|Hzero].
    + rewrite !band_body_unbounded by (assumption || lra). rewrite !break_test_take.
      destruct (Qleb_spec (x + - x) 0); [|lra].
      destruct (Qleb_spec (y + - y) 0); [|lra].
      rewrite !total_take.
      exists (tx + x * p), (ty + y * p). repeat split; nra.
    + rewrite (band_body_unbounded_none x) by assumption. rewrite break_test.
      destruct (Qleb_spec x 0); [|lra].
      destruct (for_bands_total_upper M (Band.mk None (Fin p) :: rest)
                  y c ty sy) as [Y [HY [Hlo Hhi]]]; [assumption|assumption|lra|lra|].
      cbn [for_bands] in HY. cbv zeta in HY.
      exists tx, Y. repeat split; [exact HY|lra|nra].
Qed.

(** The bands of a regime stay below its top rate, whatever the
    parameters. *)
Lemma registry_rates_within (c : CountryKey) (p : Params) :
  forallb (rate_within (top_rate c))
    (TaxConfig.bands (taxConfigs c) (Some p)) = true.
Proof.
  destruct p as [f fica ni pa].
  destruct c; cbn [taxConfigs TaxConfig.bands]; try reflexivity.
  destruct f as [[|]|]; reflexivity.
Qed.

(** The income tax of two taxable incomes under the same regime and
    parameters. *)
Lemma income_tax_lipschitz (c : CountryKey) (p : Params) (x y : Q) :
  finite_allowance p = true ->
  0 <= x -> x <= y ->
  exists X Y : Q,
    TaxResult.tax (calcProgressiveTax (Fin x) (TaxConfig.bands (taxConfigs c) (Some p)))
    = Fin X
    /\ TaxResult.tax (calcProgressiveTax (Fin y) (TaxConfig.bands (taxConfigs c) (Some p)))
       = Fin Y
    /\ X <= Y /\ Y - X <= top_rate c * (y - x).
Proof.
  intros Hpa Hx Hxy.
  destruct (registry_bands_finite c p Hpa) as [Hcaps _].
  rewrite !calcProgressiveTax_unfold. cbv zeta. cbn [TaxResult.tax].
  assert (Hcx : clamp x == x) by (unfold clamp; q_split; lra).
  assert (Hcy : clamp y == y) by (unfold clamp; q_split; lra).
  destruct (for_bands_total_lipschitz (top_rate c) _ (clamp x) (clamp y) 0 0 0 [] []
              Hcaps (registry_rates_within c p))
    as [X [Y [HX [HY [Hle Hup]]]]]; [destruct c; cbv; discriminate|lra|lra|].
  exists X, Y. split; [exact HX|]. split; [exact HY|].
  split; [lra|]. rewrite Hcx, Hcy in Hup. lra.
Qed.

(** The extras of two gross incomes under the same regime and
    parameters. *)
Lemma extraTotal_lipschitz (st1 st2 : State.t) (g1 g2 : Q) :
  State.country st2 = State.country st1 ->
  State.params st2 = State.params st1 ->
  grossAnnual st1 = Fin g1 -> grossAnnual st2 = Fin g2 ->
  g1 <= g2 ->
  exists E1 E2 : Q,
    extraTotal st1 = Fin E1 /\ extraTotal st2 = Fin E2
    /\ E1 <= E2 /\ E2 - E1 <= extras_rate (State.country st1) * (g2 - g1).
Proof.
  intros Hc Hp Hg1 Hg2 Hle.
  unfold extraTotal, extras, cfg. rewrite Hg1, Hg2, Hc, Hp.
  destruct (State.country st1);
    cbn [taxConfigs TaxConfig.extras extras_rate].
  - exists 0, 0. repeat split; lra.
  - exists 0, 0. repeat split; lra.
  - unfold us_extras. cbn [opt_field].
    destruct (includeFICA (State.params st1)) as [[|]|];
      cbn [truthy app fold_left ExtraItem.amount].
    + js_cases; do 2 eexists; (split; [reflexivity|]); (split; [reflexivity|]);
        split; lra.
    + exists 0, 0. repeat split; lra.
    + exists 0, 0. repeat split; lra.
  - unfold uk_extras. cbn [opt_field].
    destruct (includeNI (State.params st1)) as [[|]|];
      cbn [truthy app fold_left ExtraItem.amount].
    + js_cases; do 2 eexists; (split; [reflexivity|]); (split; [reflexivity|]);
        split; lra.
    + exists 0, 0. repeat split; lra.
    + exists 0, 0. repeat split; lra.
Qed.

Lemma with_amount_gross (st : State.t) :
  exists k : Q, 0 < k /\
    forall a : Q, exists g : Q,
      grossAnnual (with_amount st a) = Fin g /\ g == a * k.
Proof.
  unfold grossAnnual, with_amount. cbn [State.period State.amount].
  destruct (State.period st).
  - exists 1. split; [lra|]. intros a. exists a. split; [reflexivity|lra].
  - exists 12. split; [lra|]. intros a. eexists. split; [reflexivity|lra].
Qed.

Lemma taxable_of_gross (st : State.t) (g d : Q) :
  grossAnnual st = Fin g -> deductions st = Fin d ->
  exists b : Q, taxableBase st = Fin b
                /\ 0 <= b /\ g - d <= b /\ (b == 0 \/ b == g - d).
Proof.
  intros Hg Hd. unfold taxableBase. rewrite Hg, Hd.
  js_cases; eexists; (split; [reflexivity|]); repeat split; try lra;
    (left; lra) || (right; lra).
Qed.

Lemma top_and_extras_rate (c : CountryKey) :
  0 <= top_rate c /\ 0 <= extras_rate c /\ top_rate c + extras_rate c <= 1.
Proof. destruct c; cbn [top_rate extras_rate]; repeat split; lra. Qed.

(** In exact arithmetic.  A raise never lowers the total tax and never lowers the net
    income: for every regime, parameters (any finite personal
    allowance), period and finite deductions, entering a larger finite
    amount gives a total tax and a net income that are at least what
    they were. *)
Lemma raise_never_lowers_net_exact (st : State.t) (a1 a2 : Q) :
  finite_inputs st = true ->
  a1 <= a2 ->
  (totalTax (with_amount st a1) <=? totalTax (with_amount st a2))%js = true
  /\ (netAnnual (with_amount st a1) <=? netAnnual (with_amount st a2))%js = true.
Proof.
  intros Hfin Ha.
  destruct (finite_inputs_inv st Hfin)
    as [g0 [d [b0 [_ [Hd [_ [Hd0 [_ [_ [_ Hpa]]]]]]]]]].
  destruct (with_amount_gross st) as [k [Hk Hgross]].
  destruct (Hgross a1) as [g1 [Hg1 Eg1]]. destruct (Hgross a2) as [g2 [Hg2 Eg2]].
  assert (Hg : g1 <= g2) by nra.
  destruct (taxable_of_gross (with_amount st a1) g1 d Hg1 Hd)
    as [b1 [Hb1 [Hb10 [Hb1g Hb1c]]]].
  destruct (taxable_of_gross (with_amount st a2) g2 d Hg2 Hd)
    as [b2 [Hb2 [Hb20 [Hb2g Hb2c]]]].
  assert (Hb : b1 <= b2) by (destruct Hb1c, Hb2c; lra).
  assert (Hbg : b2 - b1 <= g2 - g1) by (destruct Hb1c, Hb2c; lra).
  destruct (income_tax_lipschitz (State.country st) (State.params st) b1 b2
              Hpa Hb10 Hb) as [T1 [T2 [HT1 [HT2 [HT HTup]]]]].
  destruct (extraTotal_lipschitz (with_amount st a1) (with_amount st a2) g1 g2
              eq_refl eq_refl Hg1 Hg2 Hg) as [E1 [E2 [HE1 [HE2 [HE HEup]]]]].
  cbn [with_amount State.country] in HEup.
  destruct (top_and_extras_rate (State.country st)) as [HM [He HMe]].
  assert (Htt1 : totalTax (with_amount st a1) = Fin (T1 + E1)).
  { unfold totalTax. rewrite incomeTax_unfold, Hb1, HE1.
    cbn [with_amount State.country State.params]. rewrite HT1. reflexivity. }
  assert (Htt2 : totalTax (with_amount st a2) = Fin (T2 + E2)).
  { unfold totalTax. rewrite incomeTax_unfold, Hb2, HE2.
    cbn [with_amount State.country State.params]. rewrite HT2. reflexivity. }
  assert (Hgrow : (T2 + E2) - (T1 + E1) <= g2 - g1) by nra.
  unfold netAnnual. rewrite Htt1, Htt2, Hg1, Hg2.
  split; js_cases; try reflexivity; lra.
Qed.

(** X13. A raise never lowers the total tax and never lowers the net
    income: for every regime, period and modest inputs, replacing the
    amount entered by a larger whole amount of at most a billion gives
    a total tax and a net income that are at least what they were. *)
Theorem raise_never_lowers_net (st : State.t) (a1 a2 : Q) :
  modest_inputs st = true ->
  modest a1 = true -> modest a2 = true ->
  a1 <= a2 ->
  (totalTax (with_amount st a1) <=? totalTax (with_amount st a2))%js = true
  /\ (netAnnual (with_amount st a1) <=? netAnnual (with_amount st a2))%js = true.
Proof.
  intros H _ _. apply raise_never_lowers_net_exact.
  apply modest_inputs_finite. exact H.
Qed.

Lemma raise_never_lowers_net_uk :
  (totalTax (with_amount uk_monthly_5000 4000)
   <=? totalTax (with_amount uk_monthly_5000 6000))%js = true
  /\ (netAnnual (with_amount uk_monthly_5000 4000)
      <=? netAnnual (with_amount uk_monthly_5000 6000))%js = true.
Proof.
  apply (raise_never_lowers_net uk_monthly_5000 4000 6000).
  - reflexivity.
  - reflexivity.
  - reflexivity.
  - unfold Qle; simpl; lia.
Defined.




(** ** The marginal rate *)

Lemma chain_weaken (l : list (Q * Q)) (rho p : Q) :
  rho <= p -> chain p l -> chain rho l.
Proof.
  destruct l as [|e rest]; cbn [chain]; [auto|].
  intros H [H1 H2]. split; [lra|exact H2].
Qed.

Lemma last_cons {A : Type} (l : list A) (x d : A) :
  last (x :: l) d = last l x.
Proof.
  revert x d. induction l as [|y l IH]; intros x d; [reflexivity|].
  change (last (x :: y :: l) d) with (last (y :: l) d).
  rewrite !IH. reflexivity.
Qed.

(** Slices at rates that never decrease are taxed, all together, at the
    last rate at most. *)
Lemma dot_le_last_rate (l : list (Q * Q)) :
  forall rho : Q,
    chain rho l -> Forall (fun e => 0 < fst e) l ->
    rho <= last_rate rho l /\ dot l <= last_rate rho l * mass l.
Proof.
  induction l as [|[m p] rest IH]; intros rho Hch Hpos.
  - unfold last_rate. cbn [map last dot mass]. split; lra.
  - cbn [chain snd] in Hch. destruct Hch as [Hrho Hch].
    inversion Hpos as [|e l' Hm Hrest]; subst. cbn [fst] in Hm.
    destruct (IH p Hch Hrest) as [HL Hdot].
    unfold last_rate in *. cbn [map snd]. rewrite last_cons.
    cbn [dot mass fst snd]. split; [lra|nra].
Qed.

Lemma rate_of_last (rest : list (Q * Q)) :
  forall e : Q * Q,
    Slice.rate (last (map to_slice rest) (to_slice e))
    = Fin (last (map snd rest) (snd e)).
Proof.
  induction rest as [|e' rest IH]; intros e; [reflexivity|].
  cbn [map]. rewrite !last_cons. apply IH.
Qed.

(** A run of the loop on a finite state, summed up: the slices pushed
    are finite, positive and at rates that never decrease; [total] grows
    by their tax; they carry at most what remained. *)
Lemma for_bands_run (bands : list Band.t) :
  forall (rho r c t : Q) (s : list Slice.t),
    forallb finite_cap bands = true ->
    rates_from rho bands = true ->
    0 <= r ->
    exists (new : list (Q * Q)) (T : Q),
      Loop.slices (for_bands bands (mkState (Fin r) (Fin c) (Fin t) s))
      = s ++ map to_slice new
      /\ Loop.total (for_bands bands (mkState (Fin r) (Fin c) (Fin t) s)) = Fin T
      /\ T == t + dot new
      /\ chain rho new
      /\ Forall (fun e => 0 < fst e) new
      /\ mass new <= r.
Proof.
  induction bands as [|[[[u| | | ]|] [p| | | ]] rest IH];
    intros rho r c t s Hcaps Hrates Hr;
    simpl in Hcaps; try discriminate;
    cbn [rates_from Band.rate] in Hrates; try discriminate;
    cbn [for_bands]; cbv zeta.
  - exists [], t. cbn [map dot mass chain]. rewrite app_nil_r.
    repeat split; try lra. constructor.
  - apply andb_true_iff in Hrates. destruct Hrates as [Hp Hrates].
    destruct (Qleb_spec rho p); try discriminate.
    finite_band u c r.
    + rewrite take_fin.
      destruct (IH p (r + - (u + - c)) u (t + (u + - c) * p)
                  (s ++ [Slice.mk (Fin (u + - c)) (Fin p) (Fin ((u + - c) * p))]))
        as [new [T [Hs [HT [ET [Hch [Hpos' Hmass]]]]]]];
        [assumption|assumption|lra|].
      exists ((u + - c, p) :: new), T.
      rewrite Hs, HT, <- app_assoc. cbn [map app chain dot mass fst snd].
      repeat split; try lra; try assumption.
      constructor; [cbn [fst]; lra|exact Hpos'].
    + exists [(r, p)], (t + r * p).
      unfold take, mkState.
      cbn [Loop.slices Loop.total map chain dot mass fst snd Num.add Num.mul].
      repeat split; try lra.
      constructor; [cbn [fst]; lra|constructor].
    + destruct (IH p r c t s) as [new [T [Hs [HT [ET [Hch [Hpos' Hmass]]]]]]];
        [assumption|assumption|lra|].
      exists new, T. repeat split; try assumption.
      eapply chain_weaken; eassumption.
    + exists [], t. unfold mkState.
      cbn [Loop.slices Loop.total map dot mass chain]. rewrite app_nil_r.
      repeat split; try lra. constructor.
  - apply andb_true_iff in Hrates. destruct Hrates as [Hp Hrates].
    destruct (Qleb_spec rho p); try discriminate.
    unbounded_band r.
    + exists [(r, p)], (t + r * p).
      unfold take, mkState.
      cbn [Loop.slices Loop.total map chain dot mass fst snd Num.add Num.mul].
      repeat split; try lra.
      constructor; [cbn [fst]; lra|constructor].
    + exists [], t. unfold mkState.
      cbn [Loop.slices Loop.total map dot mass chain]. rewrite app_nil_r.
      repeat split; try lra. constructor.
Qed.

(** The rates of every regime never decrease along the bands. *)
Lemma registry_rates_from (c : CountryKey) (p : Params) :
  rates_from 0 (TaxConfig.bands (taxConfigs c) (Some p)) = true.
Proof.
  destruct p as [f fica ni pa].
  destruct c; cbn [taxConfigs TaxConfig.bands]; try reflexivity.
  destruct f as [[|]|]; reflexivity.
Qed.

(** In exact arithmetic.  The average rate stays below the marginal rate: for every
    regime and finite inputs, the income tax is at most [marginalRate],
    the rate of the last slice, applied to the whole taxable income; the
    marginal rate is finite and not negative. *)
Lemma income_tax_at_most_marginal_exact (st : State.t) :
  finite_inputs st = true ->
  exists T m b : Q,
    incomeTax st = Fin T /\ marginalRate st = Fin m /\ taxableBase st = Fin b
    /\ 0 <= m /\ T <= m * b.
Proof.
  intros Hfin.
  destruct (finite_inputs_inv st Hfin)
    as [g [d [b [Hg [Hd [Hb [Hd0 [Hb0 [_ [_ Hpa]]]]]]]]]].
  destruct (registry_bands_finite (State.country st) (State.params st) Hpa)
    as [Hcaps _].
  assert (Hc : clamp b == b) by (unfold clamp; q_split; lra).
  destruct (for_bands_run _ 0 (clamp b) 0 0 [] Hcaps
              (registry_rates_from (State.country st) (State.params st)))
    as [new [T [Hs [HT [ET [Hch [Hpos Hmass]]]]]]]; [lra|].
  destruct (dot_le_last_rate new 0 Hch Hpos) as [HL Hdot].
  exists T, (last_rate 0 new), b.
  split; [rewrite incomeTax_unfold, Hb, calcProgressiveTax_unfold; exact HT|].
  split.
  - unfold marginalRate. rewrite slices_unfold, Hb, calcProgressiveTax_unfold.
    cbv zeta. cbn [TaxResult.slices]. rewrite Hs. cbn [app].
    unfold last_rate. destruct new as [|e rest]; [reflexivity|].
    cbn [map]. rewrite last_cons. apply rate_of_last.
  - split; [exact Hb|]. split; [exact HL|]. nra.
Qed.

(** X15. The average rate stays below the marginal rate: for every
    regime, period and modest inputs, [marginalRate], the rate of the
    last slice, is finite and not negative, and
    [incomeTax <= marginalRate * taxableBase]. *)
Theorem income_tax_at_most_marginal (st : State.t) :
  modest_inputs st = true ->
  exists m : Q,
    marginalRate st = Fin m /\ 0 <= m
    /\ (incomeTax st <=? marginalRate st * taxableBase st)%js = true.
Proof.
  intros H.
  destruct (income_tax_at_most_marginal_exact st (modest_inputs_finite st H))
    as [T [m [b [HT [Hm [Hb [Hm0 Hle]]]]]]].
  exists m. split; [exact Hm|]. split; [exact Hm0|].
  rewrite HT, Hm, Hb. cbn [Num.mul Num.leb].
  destruct (Qleb_spec T (m * b)); [reflexivity|lra].
Qed.

Lemma income_tax_at_most_marginal_us :
  exists m : Q,
    marginalRate us_at_200000 = Fin m /\ 0 <= m
    /\ (incomeTax us_at_200000
        <=? marginalRate us_at_200000 * taxableBase us_at_200000)%js = true.
Proof.
  apply (income_tax_at_most_marginal us_at_200000). reflexivity.
Defined.

(** ** Extras and the effective rate *)

Lemma extraTotal_upper (st : State.t) (g : Q) :
  grossAnnual st = Fin g -> 0 <= g ->
  exists E : Q, extraTotal st = Fin E
                /\ 0 <= E /\ E <= extras_rate (State.country st) * g.
Proof.
  intros Hg Hg0. unfold extraTotal, extras, cfg. rewrite Hg.
  destruct (State.country st); cbn [taxConfigs TaxConfig.extras extras_rate].
  - exists 0. repeat split; lra.
  - exists 0. repeat split; lra.
  - unfold us_extras. cbn [opt_field].
    destruct (includeFICA (State.params st)) as [[|]|];
      cbn [truthy app fold_left ExtraItem.amount].
    + js_cases; eexists; (split; [reflexivity|]); split; lra.
    + exists 0. repeat split; lra.
    + exists 0. repeat split; lra.
  - unfold uk_extras. cbn [opt_field].
    destruct (includeNI (State.params st)) as [[|]|];
      cbn [truthy app fold_left ExtraItem.amount].
    + js_cases; eexists; (split; [reflexivity|]); split; lra.
    + exists 0. repeat split; lra.
    + exists 0. repeat split; lra.
Qed.

(** In exact arithmetic.  The clamp of [netAnnual] never bites on a non-negative gross
    income: for every regime and finite inputs with [grossAnnual >= 0],
    the total tax lies between 0 and the gross income times the top band
    rate plus the rate of the extras (0.30 in India, 0.4465 in the US,
    0.53 in the UK), the net income is exactly the gross income less the
    total tax, and the effective rate lies between 0 and that bound. *)
Lemma total_tax_below_gross_exact (st : State.t) :
  finite_inputs st = true ->
  exists g tt net eff : Q,
    grossAnnual st = Fin g /\ totalTax st = Fin tt
    /\ netAnnual st = Fin net /\ effRate st = Fin eff
    /\ (0 <= g ->
        0 <= tt
        /\ tt <= (top_rate (State.country st) + extras_rate (State.country st)) * g
        /\ net == g - tt
        /\ 0 <= eff
        /\ eff <= top_rate (State.country st) + extras_rate (State.country st)).
Proof.
  intros Hfin.
  destruct (finite_inputs_inv st Hfin)
    as [g [d [b [Hg [Hd [Hb [Hd0 [Hb0 [Hbg [Hb00 Hpa]]]]]]]]]].
  destruct (registry_bands_finite (State.country st) (State.params st) Hpa)
    as [Hcaps _].
  destruct (top_and_extras_rate (State.country st)) as [HM [He HMe]].
  assert (Hc : clamp b == b) by (unfold clamp; q_split; lra).
  destruct (for_bands_total_upper (top_rate (State.country st)) _ (clamp b) 0 0 []
              Hcaps (registry_rates_within (State.country st) (State.params st)))
    as [T [HT [HT0 HTup]]]; [lra|lra|].
  assert (HI : incomeTax st = Fin T)
    by (rewrite incomeTax_unfold, Hb, calcProgressiveTax_unfold; exact HT).
  destruct (extraTotal_finite st g Hg) as [E [HE _]].
  assert (Htt : totalTax st = Fin (T + E))
    by (unfold totalTax; rewrite HI, HE; reflexivity).
  assert (Hbound : 0 <= g ->
            0 <= T + E
            /\ T + E <= (top_rate (State.country st)
                         + extras_rate (State.country st)) * g).
  { intros Hg0.
    destruct (extraTotal_upper st g Hg Hg0) as [E' [HE' [HE0 HEup]]].
    rewrite HE in HE'. injection HE' as HE'. subst E'.
    specialize (Hbg Hg0). split; nra. }
  exists g, (T + E).
  unfold netAnnual, effRate. rewrite Htt, Hg.
  js_unfold. cbv [Num.div].
  destruct (Qleb_spec 0 (g + - (T + E))); destruct (Qltb_spec 0 g);
    try (destruct (Qeqb_spec g 0); [lra|]);
    do 2 eexists; (split; [reflexivity|]); (split; [reflexivity|]);
    (split; [reflexivity|]); (split; [reflexivity|]);
    intros Hg0; destruct (Hbound Hg0) as [Htt0 Httup];
    (split; [lra|]); (split; [lra|]);
    (split; [nra|]);
    (split; [try (apply Qle_shift_div_l; lra); lra|]);
    try (apply Qle_shift_div_r; [lra|]); nra.
Qed.

(** X16. The clamp of [netAnnual] never bites on a non-negative gross
    income: for every regime, period and modest inputs with
    [grossAnnual >= 0], the total tax lies between 0 and the gross
    income times the top band rate plus the rate of the extras (0.30 in
    India, 0.4465 in the US, 0.53 in the UK), the net income is
    [grossAnnual - totalTax], and the effective rate lies between 0 and
    that same bound. *)
Theorem total_tax_below_gross (st : State.t) :
  modest_inputs st = true ->
  exists g : Q,
    grossAnnual st = Fin g
    /\ (0 <= g ->
        (Fin 0 <=? totalTax st)%js = true
        /\ (totalTax st
            <=? Fin (top_rate (State.country st) + extras_rate (State.country st))
                * grossAnnual st)%js = true
        /\ netAnnual st =j= (grossAnnual st - totalTax st)%js
        /\ (Fin 0 <=? effRate st)%js = true
        /\ (effRate st
            <=? Fin (top_rate (State.country st) + extras_rate (State.country st)))%js
           = true).
Proof.
  intros H.
  destruct (total_tax_below_gross_exact st (modest_inputs_finite st H))
    as [g [tt [net [eff [Hg [Htt [Hnet [Heff Hpos]]]]]]]].
  exists g. split; [exact Hg|]. intros Hg0.
  destruct (Hpos Hg0) as [Htt0 [Httup [Hneteq [Heff0 Heffup]]]].
  rewrite Htt, Hnet, Heff, Hg. cbn [Num.mul Num.sub Num.add Num.neg Num.leb Num.same].
  repeat split.
  - destruct (Qleb_spec 0 tt); [reflexivity|lra].
  - match goal with |- Qleb ?x ?y = true => destruct (Qleb_spec x y) end;
      [reflexivity|lra].
  - lra.
  - destruct (Qleb_spec 0 eff); [reflexivity|lra].
  - match goal with |- Qleb ?x ?y = true => destruct (Qleb_spec x y) end;
      [reflexivity|lra].
Qed.

Lemma total_tax_below_gross_uk :
  exists g : Q,
    grossAnnual uk_at_60000 = Fin g
    /\ (0 <= g ->
        (Fin 0 <=? totalTax uk_at_60000)%js = true
        /\ (totalTax uk_at_60000 <=? Fin (0.45 + 0.08) * grossAnnual uk_at_60000)%js
           = true
        /\ netAnnual uk_at_60000
           =j= (grossAnnual uk_at_60000 - totalTax uk_at_60000)%js
        /\ (Fin 0 <=? effRate uk_at_60000)%js = true
        /\ (effRate uk_at_60000 <=? Fin (0.45 + 0.08))%js = true).
Proof.
  apply (total_tax_below_gross uk_at_60000). reflexivity.
Defined.

(** X17. National Insurance is clamped where FICA is not: in the UK
    regime with [includeNI] enabled, the National Insurance item is a
    finite amount that is never negative, for every finite gross income
    (negative ones included); it is zero up to a gross income of 12,570
    and never more than 8% of a non-negative gross income. *)
Theorem national_insurance_never_negative (st : State.t) (g : Q) :
  State.country st = uk ->
  includeNI (State.params st) = Some true ->
  grossAnnual st = Fin g ->
  exists ni : Q,
    extras st = [ExtraItem.mk "National Insurance (employee)" (Fin ni)]
    /\ 0 <= ni
    /\ (g <= 12570 -> ni == 0)
    /\ (0 <= g -> ni <= 0.08 * g).
Proof.
  intros Huk Hni Hg.
  unfold extras, cfg. rewrite Huk, Hg. cbn [taxConfigs TaxConfig.extras].
  unfold uk_extras. cbn [opt_field]. rewrite Hni. cbn [truthy app].
  js_cases; eexists; (split; [reflexivity|]); repeat split; intros; lra.
Qed.

Lemma national_insurance_never_negative_at_minus_1000 :
  exists ni : Q,
    extras uk_negative_gross
    = [ExtraItem.mk "National Insurance (employee)" (Fin ni)]
    /\ ni == 0.
Proof.
  destruct (national_insurance_never_negative uk_negative_gross (-1000)
              eq_refl eq_refl eq_refl) as [ni [Hitems [_ [Hzero _]]]].
  exists ni. split; [exact Hitems|].
  apply Hzero. unfold Qle; simpl; lia.
Defined.

(** ** Currency codes *)

(** X18. [currencySymbolToISO] always returns one of the three codes
    INR, USD and GBP; the glyph of every regime of the registry is
    mapped to the currency of its country, none by the fallback; and
    every symbol other than the rupee and pound glyphs, the empty string
    included, is mapped to USD. *)
Theorem currency_codes (sym : string) (c : CountryKey) :
  In (currencySymbolToISO sym) ["INR"; "USD"; "GBP"]%string
  /\ currencySymbolToISO (TaxConfig.currency (taxConfigs c))
     = match c with
       | india_new | india_old => "INR"
       | us => "USD"
       | uk => "GBP"
       end%string
  /\ (sym <> "₹" -> sym <> "£" -> currencySymbolToISO sym = "USD")%string.
Proof.
  split; [|split].
  - unfold currencySymbolToISO.
    destruct (String.eqb sym "₹"); [left; reflexivity|].
    destruct (String.eqb sym "$"); [right; left; reflexivity|].
    destruct (String.eqb sym "£"); [right; right; left; reflexivity|].
    right; left; reflexivity.
  - destruct c; reflexivity.
  - intros Hr Hp. unfold currencySymbolToISO.
    destruct (String.eqb_spec sym "₹"); [contradiction|].
    destruct (String.eqb_spec sym "$"); [reflexivity|].
    destruct (String.eqb_spec sym "£"); [contradiction|reflexivity].
Qed.

(** * The code in binary64

    The engine of module [F64] is run by the kernel on primitive floats;
    what follows holds of the arithmetic the source really performs. *)

(** X19. In binary64, for every whole income from 12,571 to 50,269: the
    band tax under the allowance of 12,570 is [(income - 12570) * 0.20]
    as the code rounds it; from 15,000 on the band tax under the
    allowance of 15,000 is [(income - 15000) * 0.20] and the fall is
    within a millionth of 486; up to 15,000 the new tax is 0 and the
    fall is the whole old tax.  At 15,001 the fall is not the double
    486. *)
Theorem allowance_shift_in_binary64 :
  for_whole (Z.to_nat 37699) 12571 f64_allowance_shift = true
  /\ PrimFloat.eqb
       (PrimFloat.sub (f64_uk_tax 12570 15001) (f64_uk_tax 15000 15001))
       (F64.of_Q 486)
     = false.
Proof. split; vm_compute; reflexivity. Qed.

(** X20. In binary64, for every regime with its default parameters,
    both periods, no deduction or 75,000 of them, and every amount from
    0 to 5,000,000 by steps of 25,000: the slices add up to the taxable
    income, the income tax lies between 0 and the taxable income and is
    at most the marginal rate times it, no figure is [NaN] or infinite,
    the net income is the gross income less the total tax, and the
    total tax and the effective rate stay within the top band rate plus
    the rate of the extras. *)
Theorem figures_hold_in_binary64 :
  forallb f64_figures_hold grid_states = true.
Proof. vm_compute. reflexivity. Qed.
